(** * SNOMED-CT DuckDB loader: release-file resolution, table naming, load order
      and load orchestration of [python-duckdb/snomed-duckdb.py].

    The development is a shallow embedding of the script.  Python strings are
    lists of code points; the regular expressions of [get_table_details] are
    transcribed into a small syntax that is run by a backtracking matcher with
    the priorities of Python's [re] (greedy quantifiers, leftmost alternative
    first, numbered groups, [^] and [$]); [re.sub] and [str.lower] are
    functions over these strings; the driver under [__main__] is a program in
    a state-and-exception monad over the external collaborators (file system,
    DuckDB connection, console), which records every collaborator call in a
    trace. *)

From Stdlib Require Import String Ascii NArith Bool Arith Lia List.
From Stdlib Require Import Sorted Permutation.
Import ListNotations.

Set Implicit Arguments.

(* ================================================================== *)
(** * Python strings *)
(* ================================================================== *)

(** A Python [str] is a sequence of Unicode code points. *)
Definition char := N.
Definition str := list char.

(** String literals of the script (all of them ASCII). *)
Definition py (s : string) : str := map N_of_ascii (list_ascii_of_string s).

Definition nl : char := 10%N.

Definition char_eqb (a b : char) : bool := N.eqb a b.

Fixpoint str_eqb (a b : str) : bool :=
  match a, b with
  | [], [] => true
  | x :: a', y :: b' => char_eqb x y && str_eqb a' b'
  | _, _ => false
  end.

Definition in_range (lo hi c : char) : bool := (N.leb lo c && N.leb c hi)%bool.

Definition is_ascii (c : char) : bool := N.ltb c 128%N.
Definition is_ascii_upper (c : char) : bool := in_range 65%N 90%N c.
Definition is_ascii_lower (c : char) : bool := in_range 97%N 122%N c.
Definition is_ascii_digit (c : char) : bool := in_range 48%N 57%N c.

(** What Python takes from the Unicode character database.  The tables are
    only consulted for code points outside ASCII; they belong to the Python
    runtime, not to the script, and are left as parameters. *)
Class Unicode := {
  (** [str.isalnum] of a non-ASCII character (it decides [\w]). *)
  uni_alnum : char -> bool;
  (** a non-ASCII decimal digit, category Nd (it decides [\d]). *)
  uni_decimal : char -> bool;
  (** the lower-case expansion of the non-ASCII character at index [i] of
      [s]; it may depend on the neighbours (final sigma) and may be more than
      one code point. *)
  uni_lower : str -> nat -> str
}.

(** The table that knows no character outside ASCII. *)
Definition ascii_only : Unicode :=
  {| uni_alnum := fun _ => false;
     uni_decimal := fun _ => false;
     uni_lower := fun s i => match nth_error s i with
                             | Some c => [c]
                             | None => []
                             end |}.

Section Strings.
Context {U : Unicode}.

(** [\d] and [\w] of a [str] pattern. *)
Definition is_digit (c : char) : bool :=
  if is_ascii c then is_ascii_digit c else uni_decimal c.

Definition is_word (c : char) : bool :=
  if is_ascii c
  then (is_ascii_upper c || is_ascii_lower c || is_ascii_digit c
        || char_eqb c 95%N)%bool
  else uni_alnum c.

(** [str.lower]. *)
Definition lower_at (s : str) (i : nat) : str :=
  match nth_error s i with
  | Some c => if is_ascii c
              then [if is_ascii_upper c then (c + 32)%N else c]
              else uni_lower s i
  | None => []
  end.

Definition lower (s : str) : str :=
  concat (map (lower_at s) (seq 0 (length s))).

End Strings.

(** [needle in haystack]. *)
Fixpoint starts_with (p s : str) : bool :=
  match p, s with
  | [], _ => true
  | x :: p', y :: s' => char_eqb x y && starts_with p' s'
  | _ :: _, [] => false
  end.

Fixpoint contains (needle hay : str) : bool :=
  starts_with needle hay ||
  match hay with
  | [] => false
  | _ :: hay' => contains needle hay'
  end.

Definition ends_with (p s : str) : bool := starts_with (rev p) (rev s).

(** [a < b] on [str]: lexicographic on code points. *)
Fixpoint str_ltb (a b : str) : bool :=
  match a, b with
  | _, [] => false
  | [], _ :: _ => true
  | x :: a', y :: b' => N.ltb x y || (char_eqb x y && str_ltb a' b')
  end.

(* ================================================================== *)
(** * Python exceptions and results *)
(* ================================================================== *)

Inductive exn :=
| TypeError            (* [None + "..."] *)
| ValueError (msg : str)
| IndexError
| SystemExit           (* raised by [quit()] *)
| OtherError (what : str).

Inductive result (A : Type) :=
| Ok (a : A)
| Raise (e : exn).
Arguments Ok {A} a.
Arguments Raise {A} e.

Definition rbind {A B} (r : result A) (f : A -> result B) : result B :=
  match r with
  | Ok a => f a
  | Raise e => Raise e
  end.

(** [a + b] where [a] may be [None]. *)
Definition py_add (a : option str) (b : str) : result str :=
  match a with
  | Some x => Ok (x ++ b)
  | None => Raise TypeError
  end.

(* ================================================================== *)
(** * Regular expressions of the script and the matcher of [re] *)
(* ================================================================== *)

Inductive cclass :=
| CWord                       (* \w *)
| CDigit                      (* \d *)
| CRange (lo hi : char)       (* [a-z] *)
| COne (c : char)
| CUnion (a b : cclass).

Inductive regex :=
| Lit (w : str)                                   (* literal text *)
| Seq (r1 r2 : regex)
| Alt (r1 r2 : regex)                             (* r1|r2 *)
| Opt (r : regex)                                 (* r? , greedy *)
| Rep (p : cclass) (lo : nat) (hi : option nat)   (* p{lo,hi}, p+ ; greedy *)
| Grp (i : nat) (r : regex)                       (* capturing group i *)
| Bol                                             (* ^ *)
| Eol.                                            (* $ *)

Declare Scope regex_scope.
Delimit Scope regex_scope with re.
Infix "+++" := Seq (at level 60, right associativity) : regex_scope.

(** Captured groups, most recent first. *)
Definition caps := list (nat * str).

Fixpoint get_group (i : nat) (c : caps) : option str :=
  match c with
  | [] => None
  | (j, w) :: c' => if Nat.eqb i j then Some w else get_group i c'
  end.

Section Matcher.
Context {U : Unicode}.

Fixpoint in_class (p : cclass) (c : char) : bool :=
  match p with
  | CWord => is_word c
  | CDigit => is_digit c
  | CRange lo hi => in_range lo hi c
  | COne x => char_eqb c x
  | CUnion a b => in_class a c || in_class b c
  end.

Variable A : Type.

(** A continuation receives the position reached, the text that remains and
    the groups captured so far. *)
Definition cont := nat -> str -> caps -> option A.

Definition dec_hi (hi : option nat) : option nat := option_map pred hi.

(** Greedy repetition of a character class: take as many characters as
    allowed, give them back one at a time while the continuation fails. *)
Fixpoint rep_greedy (p : cclass) (lo : nat) (hi : option nat) (k : cont)
    (pos : nat) (s : str) (c : caps) {struct s} : option A :=
  let stop := match lo with O => k pos s c | S _ => None end in
  match hi with
  | Some O => stop
  | _ =>
    match s with
    | x :: s' =>
        if in_class p x then
          match rep_greedy p (pred lo) (dec_hi hi) k (S pos) s' c with
          | Some a => Some a
          | None => stop
          end
        else stop
    | [] => stop
    end
  end.

Fixpoint lit_match (w : str) (k : cont) (pos : nat) (s : str) (c : caps)
    : option A :=
  match w with
  | [] => k pos s c
  | x :: w' =>
      match s with
      | y :: s' => if char_eqb x y then lit_match w' k (S pos) s' c else None
      | [] => None
      end
  end.

Fixpoint mt (r : regex) (k : cont) (pos : nat) (s : str) (c : caps)
    : option A :=
  match r with
  | Lit w => lit_match w k pos s c
  | Seq r1 r2 => mt r1 (mt r2 k) pos s c
  | Alt r1 r2 =>
      match mt r1 k pos s c with
      | Some a => Some a
      | None => mt r2 k pos s c
      end
  | Opt r1 =>
      match mt r1 k pos s c with
      | Some a => Some a
      | None => k pos s c
      end
  | Rep p lo hi => rep_greedy p lo hi k pos s c
  | Grp i r1 =>
      mt r1 (fun pos' s' c' => k pos' s' ((i, firstn (pos' - pos) s) :: c'))
         pos s c
  | Bol => if Nat.eqb pos 0 then k pos s c else None
  | Eol =>
      match s with
      | [] => k pos s c
      | [x] => if char_eqb x nl then k pos s c else None
      | _ => None
      end
  end.

End Matcher.

(** A match object: where the match ends (relative to where it started) and
    its groups. *)
Record pymatch := { m_len : nat; m_groups : caps }.

Definition group (m : pymatch) (i : nat) : option str := get_group i (m_groups m).

Section Re.
Context {U : Unicode}.

(** The match of [r] that starts at position [pos] of the subject, [s] being
    the subject from [pos] on. *)
Definition match_at (r : regex) (pos : nat) (s : str) : option pymatch :=
  mt r (fun pos' _ c => Some {| m_len := pos' - pos; m_groups := c |}) pos s [].

(** [re.match(r, s)]. *)
Definition re_match (r : regex) (s : str) : option pymatch := match_at r 0 s.

(** [re.sub(r, repl, s)] with [repl] a function of the match object.  [skip]
    counts the characters of the last match still to be passed over.  None of
    the script's patterns matches the empty string; an empty match is replaced
    and the scan moves on by one character. *)
Fixpoint sub_loop (r : regex) (repl : pymatch -> result str)
    (pos skip : nat) (s : str) {struct s} : result str :=
  match skip with
  | S k =>
      match s with
      | [] => Ok []
      | _ :: s' => sub_loop r repl (S pos) k s'
      end
  | O =>
      match match_at r pos s with
      | Some m =>
          rbind (repl m) (fun out =>
            match s with
            | [] => Ok out
            | x :: s' =>
                match m_len m with
                | O => rbind (sub_loop r repl (S pos) 0 s')
                             (fun t => Ok (out ++ x :: t))
                | S n => rbind (sub_loop r repl (S pos) n s')
                               (fun t => Ok (out ++ t))
                end
            end)
      | None =>
          match s with
          | [] => Ok []
          | x :: s' => rbind (sub_loop r repl (S pos) 0 s')
                             (fun t => Ok (x :: t))
          end
      end
  end.

Definition re_sub (r : regex) (repl : pymatch -> result str) (s : str)
    : result str :=
  sub_loop r repl 0 0 s.

End Re.

(** A replacement template ([r"\1_\2"]): literal text and group references.
    A group that took no part in the match expands to the empty string. *)
Inductive titem :=
| TLit (w : str)
| TGrp (i : nat).

Definition expand (t : list titem) (m : pymatch) : result str :=
  Ok (concat (map (fun it => match it with
                             | TLit w => w
                             | TGrp i => match group m i with
                                         | Some w => w
                                         | None => []
                                         end
                             end) t)).

(* ================================================================== *)
(** * [ReleaseType] *)
(* ================================================================== *)

Inductive ReleaseType := FULL | SNAPSHOT | DELTA.

Definition value (R : ReleaseType) : str :=
  match R with
  | FULL => py "Full"
  | SNAPSHOT => py "Snapshot"
  | DELTA => py "Delta"
  end.

Section Naming.
Context {U : Unicode}.

(** [self.short_code = full_name[0].lower()]. *)
Definition short_code (R : ReleaseType) : str := lower (firstn 1 (value R)).

(* ================================================================== *)
(** * [get_table_details]: the naming convention and the rewrite rules *)
(* ================================================================== *)

Local Open Scope regex_scope.

(** [x?(sct|der)2], group 1. *)
Definition file_type : regex :=
  Opt (Lit (py "x")) +++ Grp 1 (Alt (Lit (py "sct")) (Lit (py "der")))
  +++ Lit (py "2").

(** [(\w+)], group 2. *)
Definition content_type : regex := Grp 2 (Rep CWord 1 None).

(** [(?:\d{6,18})?]. *)
Definition refset_id : regex := Opt (Rep CDigit 6 (Some 18)).

(** [(\w+)?], group 3. *)
Definition summary : regex := Opt (Grp 3 (Rep CWord 1 None)).

Definition rt (R : ReleaseType) : regex := Lit (value R).

(** [(-[a-z-]{2,8})?], group 4. *)
Definition language_code : regex :=
  Opt (Grp 4 (Lit (py "-")
              +++ Rep (CUnion (CRange 97%N 122%N) (COne 45%N)) 2 (Some 8))).

Definition content_sub_type (R : ReleaseType) : regex :=
  refset_id +++ summary +++ rt R +++ language_code.

(** [(?:(INT|[A-Z]{2})\d{7})], group 5. *)
Definition country_namespace : regex :=
  Grp 5 (Alt (Lit (py "INT")) (Rep (CRange 65%N 90%N) 2 (Some 2)))
  +++ Rep CDigit 7 (Some 7).

Definition version_date : regex := Rep CDigit 8 (Some 8).

Definition file_ext : regex := Lit (py "txt").

Definition filter_regex (R : ReleaseType) : regex :=
  Bol +++ file_type +++ Lit (py "_") +++ content_type +++ Lit (py "_")
  +++ content_sub_type R +++ Lit (py "_") +++ country_namespace
  +++ Lit (py "_") +++ version_date +++ Lit (py ".") +++ file_ext +++ Eol.

Definition opt_eqb (a : option str) (b : str) : bool :=
  match a with
  | Some x => str_eqb x b
  | None => false
  end.

Definition extract_strategy (R : ReleaseType) (m : pymatch) : result str :=
  if opt_eqb (group m 1) (py "sct")
     && negb (opt_eqb (group m 3) (py "OWLExpression"))
  then rbind (py_add (group m 2) (py "_")) (fun a => Ok (a ++ short_code R))
  else rbind (py_add (group m 3) (py "refset_"))
             (fun a => Ok (a ++ short_code R)).

(** The second component of a transformation: a function of the match or a
    replacement template. *)
Inductive replacement :=
| Callable (f : pymatch -> result str)
| Template (t : list titem).

Definition extract_content_or_summary (R : ReleaseType) :=
  (filter_regex R, Callable (extract_strategy R)).

Definition drop_suffix_from_refsetdescriptor (R : ReleaseType) :=
  (Lit (py "RefsetDescriptorrefset_" ++ short_code R),
   Template [TLit (py "RefsetDescriptor_" ++ short_code R)]).

Definition drop_suffix_from_simplerefset :=
  (Grp 1 (Lit (py "Simple")) +++ Grp 2 (Lit (py "Refset")),
   Template [TGrp 1]).

Definition drop_suffix_from_associationreference :=
  (Grp 1 (Lit (py "Association")) +++ Grp 2 (Lit (py "Reference")),
   Template [TGrp 1]).

Definition shorten_language_prefix :=
  (Grp 1 (Lit (py "Language")), Template [TLit (py "Lang")]).

Definition shorten_referenceset :=
  (Lit (py "ReferenceSet"), Template []).

Definition add_underscore_to_relationship_concrete_values :=
  (Grp 1 (Lit (py "Relationship")) +++ Grp 2 (Lit (py "Concrete"))
   +++ Grp 3 (Lit (py "Values")),
   Template [TGrp 1; TLit (py "_"); TGrp 2; TLit (py "_"); TGrp 3]).

Definition add_underscore_to_stated_relationship :=
  (Grp 1 (Lit (py "Stated")) +++ Grp 2 (Lit (py "Relationship")),
   Template [TGrp 1; TLit (py "_"); TGrp 2]).

Definition regex_transformations (R : ReleaseType)
    : list (regex * replacement) :=
  [ extract_content_or_summary R;
    drop_suffix_from_refsetdescriptor R;
    drop_suffix_from_simplerefset;
    drop_suffix_from_associationreference;
    shorten_language_prefix;
    shorten_referenceset;
    add_underscore_to_relationship_concrete_values;
    add_underscore_to_stated_relationship ].

(** One [re.sub(pattern, replacement, normalized_filename)]. *)
Definition apply_transformation (t : regex * replacement) (s : str)
    : result str :=
  re_sub (fst t)
         (match snd t with
          | Callable f => f
          | Template tpl => expand tpl
          end) s.

(** The inner [for pattern, replacement in ...] loop. *)
Definition rewrite_chain (ts : list (regex * replacement)) (s : str)
    : result str :=
  fold_left (fun acc t => rbind acc (apply_transformation t)) ts (Ok s).

(** The rewrite loop followed by [.lower()]. *)
Definition normalize (R : ReleaseType) (filename : str) : result str :=
  rbind (rewrite_chain (regex_transformations R) filename)
        (fun s => Ok (lower s)).

(** A load-plan entry: (table name, directory, file name). *)
Definition entry := (str * str * str)%type.

Definition table_of (x : entry) : str := fst (fst x).
Definition dir_of (x : entry) : str := snd (fst x).
Definition file_of (x : entry) : str := snd x.

(** What the loop body does with one file name: [None] when the filter
    rejects it, otherwise the outcome of the rewrite loop. *)
Definition table_name_of (R : ReleaseType) (filename : str)
    : option (result str) :=
  match re_match (filter_regex R) filename with
  | Some _ => Some (normalize R filename)
  | None => None
  end.

(** [for filename in files]. *)
Fixpoint scan_files (R : ReleaseType) (dirname : str) (files : list str)
    : result (list entry) :=
  match files with
  | [] => Ok []
  | filename :: rest =>
      match table_name_of R filename with
      | Some outcome =>
          rbind outcome (fun n =>
          rbind (scan_files R dirname rest) (fun es =>
          Ok ((n, dirname, filename) :: es)))
      | None => scan_files R dirname rest
      end
  end.

(** The body of [for dirname, _, files in os.walk(...)], over what the walk
    yields. *)
Fixpoint scan_tree (R : ReleaseType) (tree : list (str * list str))
    : result (list entry) :=
  match tree with
  | [] => Ok []
  | (dirname, files) :: rest =>
      rbind (scan_files R dirname files) (fun es =>
      rbind (scan_tree R rest) (fun es' => Ok (es ++ es')))
  end.

End Naming.

(** [sort_key]. *)
Definition sort_key (x : entry) : bool * bool * str :=
  (negb (contains (py "sct2") (dir_of x)),
   negb (contains (py "concept") (table_of x)),
   table_of x).

(** [False < True]. *)
Definition bool_ltb (a b : bool) : bool := negb a && b.

(** [<] on the key tuples: the first component that differs decides. *)
Definition key_ltb (k1 k2 : bool * bool * str) : bool :=
  let '(a1, b1, c1) := k1 in
  let '(a2, b2, c2) := k2 in
  if negb (Bool.eqb a1 a2) then bool_ltb a1 a2
  else if negb (Bool.eqb b1 b2) then bool_ltb b1 b2
  else str_ltb c1 c2.

(** [list.sort(key=sort_key)] is a stable sort that compares keys with [<];
    the key order is total, so its result is the one stable sorted
    arrangement, computed here by insertion from the right. *)
Fixpoint insert_entry (x : entry) (l : list entry) : list entry :=
  match l with
  | [] => [x]
  | y :: l' =>
      if key_ltb (sort_key y) (sort_key x) then y :: insert_entry x l'
      else x :: l
  end.

Definition sort_entries (l : list entry) : list entry :=
  fold_right insert_entry [] l.

Section Scanner.
Context {U : Unicode}.

Definition get_table_details (tree : list (str * list str))
    (R : ReleaseType) : result (list entry) :=
  rbind (scan_tree R tree) (fun es => Ok (sort_entries es)).

End Scanner.

(* ================================================================== *)
(** * The external collaborators *)
(* ================================================================== *)

(** [os.path.join(a, b)] (POSIX). *)
Definition path_join (a b : str) : str :=
  if starts_with (py "/") b then b
  else match a with
       | [] => b
       | _ => if ends_with (py "/") a then a ++ b else a ++ py "/" ++ b
       end.

(** A result row of a query. *)
Definition row := list str.

(** Statements passed to [conn.execute]. *)
Inductive statement :=
| UI_INSTALL_COMMAND
| UI_LOAD_COMMAND
| UI_START_COMMAND
| COPY (table_name rf2_filepath : str).    (* with [COPY_OPTIONS] *)

(** How a [conn.execute] ends: normally, with [duckdb.CatalogException], or
    with another exception (the text is the exception's). *)
Inductive exec_outcome :=
| Done
| CatalogException (e : str)
| Failed (e : str).

(** How the [try] block of [execute_sql_file] ends: [fetchall()] returns the
    rows; opening, reading or executing raises; or [fetchall()] itself raises
    after the success message was logged. *)
Inductive sql_outcome :=
| Rows (rows : list row)
| SqlRaises (e : str)
| FetchRaises (e : str).

Inductive level := DEBUG | INFO | WARNING | ERROR.

(** The log messages, by the name of their format constant, with their
    arguments. *)
Inductive message :=
| DEBUG_CONNECTION_CLOSED
| DEBUG_FAILED_SQL (table_name rf2_filepath : str)
| DEBUG_UI_EXT_LOADED
| ERROR_IMPORT_FAILURE (rf2_filename e : str)
| ERROR_INVALID_PACKAGE
| ERROR_SQL_EXEC_FAILED (sql_filepath e : str)
| ERROR_UI_INIT_FAILED (e : str)
| ERROR_UI_START_FAILED (e : str)
| ERROR_UNRECOGNISED_FORMAT (rf2_filename : str)
| ERROR_ZIP_NOT_FOUND
| INFO_EXTRACTING_PACKAGE (package : str)
| INFO_IMPORT_SUCCESS (rf2_filename : str)
| INFO_SQL_EXEC_SUCCESS (sql_filename : str)
| INFO_UI_RUNNING
| WARNING_NO_MATCHING_FILES (R : ReleaseType)
| FOUND_INVALID_TARGETCOMPONENTIDS (count : nat) (R : ReleaseType).

(** What the program does to the outside, in order. *)
Inductive event :=
| Log (l : level) (m : message)
| PrintHelp
| MkTemp (d : str)                  (* the temporary directory is created *)
| RmTemp (d : str)                  (* ... and removed *)
| ExtractAll (zip dest : str)
| Connect (db_path : str)           (* [duckdb.connect] *)
| Execute (s : statement) (o : exec_outcome)
| RunSqlFile (dirname sql_filename : str) (o : sql_outcome)
| Walk (top : str)
| Input
| Close.

(** The outside world: the file system, the DuckDB connection and the
    console, each call answering from the current state of the world. *)
Class World := {
  state : Type;
  (** [os.path.dirname(__file__)] *)
  script_dir : str;
  isdir : state -> str -> bool;
  isfile : state -> str -> bool;
  (** what [os.walk(top)] yields: (dirname, files) per directory; nothing
      when [top] is not a directory *)
  walk : state -> str -> list (str * list str);
  listdir : state -> str -> list str;
  mkdtemp : state -> state * str;
  rmtree : state -> str -> state;
  (** [ZipFile(zip).extractall(dest)]; [Some e] when it raises *)
  extractall : state -> str -> str -> state * option str;
  (** [duckdb.connect(db_path)]; [Some e] when it raises *)
  connect : state -> str -> state * option str;
  execute : state -> statement -> state * exec_outcome;
  (** open the file, execute its text, fetch all rows *)
  run_sql_file : state -> str -> state * sql_outcome;
  (** [input(prompt)]; [Some e] when it raises (end of input) *)
  console_input : state -> state * option str;
  close_connection : state -> state
}.

(* ================================================================== *)
(** * Programs over the collaborators *)
(* ================================================================== *)

Section Driver.
Context {U : Unicode} {Wd : World}.

(** A program maps the world to its result, the new world and the events it
    produced. *)
Definition M (A : Type) := state -> result A * state * list event.

Definition ret {A} (a : A) : M A := fun w => (Ok a, w, []).

Definition raise {A} (e : exn) : M A := fun w => (Raise e, w, []).

Definition bind {A B} (m : M A) (f : A -> M B) : M B :=
  fun w =>
    match m w with
    | (Ok a, w1, t1) => let '(r, w2, t2) := f a w1 in (r, w2, t1 ++ t2)
    | (Raise e, w1, t1) => (Raise e, w1, t1)
    end.

(** [try: body finally: fin]. *)
Definition try_finally {A} (body : M A) (fin : M unit) : M A :=
  fun w =>
    let '(r, w1, t1) := body w in
    let '(r2, w2, t2) := fin w1 in
    (match r2 with Ok _ => r | Raise e => Raise e end, w2, t1 ++ t2).

Definition emit (ev : event) : M unit := fun w => (Ok tt, w, [ev]).

Definition logging (l : level) (m : message) : M unit := emit (Log l m).

(** [quit()]. *)
Definition quit {A} : M A := raise SystemExit.

Notation "x <- m ;; k" := (bind m (fun x => k))
  (at level 61, m at next level, right associativity).
Notation "m ;;; k" := (bind m (fun _ => k))
  (at level 61, right associativity).

Definition SQL_RESOURCES_PATH : str :=
  path_join (path_join script_dir (py "resources")) (py "sql").

(** [validate_package_path]: the string itself is the first operand of the
    [or]. *)
Definition validate_package_path (package_path : str) : M unit :=
  fun w =>
    if negb (negb (str_eqb package_path [])
             || isdir w package_path || isfile w package_path)
    then (Raise (ValueError (py "Invalid package directory")), w, [])
    else (Ok tt, w, []).

(** [conn.execute(stmt)], the outcome returned to the caller. *)
Definition conn_execute (s : statement) : M exec_outcome :=
  fun w => let '(w', o) := execute w s in (Ok o, w', [Execute s o]).

(** [duckdb.connect(db_path)]. *)
Definition duckdb_connect (db_path : str) : M unit :=
  fun w =>
    let '(w1, o) := connect w db_path in
    (match o with Some e => Raise (OtherError e) | None => Ok tt end,
     w1, [Connect db_path]).

(** [DuckDBClient.__init__]. *)
Definition DuckDBClient (db_path : str) : M unit :=
  duckdb_connect db_path ;;;
  o1 <- conn_execute UI_INSTALL_COMMAND ;;
  match o1 with
  | Done =>
      o2 <- conn_execute UI_LOAD_COMMAND ;;
      match o2 with
      | Done => logging DEBUG DEBUG_UI_EXT_LOADED
      | CatalogException e | Failed e =>
          logging ERROR (ERROR_UI_INIT_FAILED e)
      end
  | CatalogException e | Failed e => logging ERROR (ERROR_UI_INIT_FAILED e)
  end.

Definition execute_sql_file (dirname sql_filename : str)
    : M (option (list row)) :=
  fun w =>
    let sql_filepath := path_join dirname sql_filename in
    let '(w1, o) := run_sql_file w sql_filepath in
    let ev := RunSqlFile dirname sql_filename o in
    match o with
    | Rows rows =>
        (Ok (Some rows), w1,
         [ev; Log INFO (INFO_SQL_EXEC_SUCCESS sql_filename)])
    | SqlRaises e =>
        (Ok None, w1, [ev; Log ERROR (ERROR_SQL_EXEC_FAILED sql_filepath e)])
    | FetchRaises e =>
        (Ok None, w1,
         [ev; Log INFO (INFO_SQL_EXEC_SUCCESS sql_filename);
          Log ERROR (ERROR_SQL_EXEC_FAILED sql_filepath e)])
    end.

Definition ddl_filename (R : ReleaseType) : str :=
  py "create_" ++ lower (value R) ++ py "_tables.sql".

Definition execute_ddl (R : ReleaseType) : M unit :=
  execute_sql_file SQL_RESOURCES_PATH (ddl_filename R) ;;; ret tt.

Definition start_ui : M unit :=
  o <- conn_execute UI_START_COMMAND ;;
  match o with
  | Done => ret tt
  | CatalogException e | Failed e => logging ERROR (ERROR_UI_START_FAILED e)
  end.

Definition import_text_file (table_name dirname rf2_filename : str) : M unit :=
  let rf2_filepath := path_join dirname rf2_filename in
  o <- conn_execute (COPY table_name rf2_filepath) ;;
  match o with
  | Done => logging INFO (INFO_IMPORT_SUCCESS rf2_filename)
  | CatalogException e =>
      logging ERROR (ERROR_UNRECOGNISED_FORMAT rf2_filename) ;;;
      logging DEBUG (DEBUG_FAILED_SQL table_name rf2_filepath)
  | Failed e =>
      logging ERROR (ERROR_IMPORT_FAILURE rf2_filename e) ;;;
      logging DEBUG (DEBUG_FAILED_SQL table_name rf2_filepath)
  end.

Definition close : M unit :=
  fun w => (Ok tt, close_connection w,
            [Close; Log DEBUG DEBUG_CONNECTION_CLOSED]).

Definition validation_filename (R : ReleaseType) : str :=
  py "validate_" ++ lower (value R) ++ py "_targetcomponentid.sql".

(** [if result and len(result)]: [None] and the empty list are both false. *)
Definition validate_targetcomponentid (R : ReleaseType) : M unit :=
  result <- execute_sql_file SQL_RESOURCES_PATH (validation_filename R) ;;
  match result with
  | Some (r :: rs) =>
      logging ERROR
        (FOUND_INVALID_TARGETCOMPONENTIDS (List.length (r :: rs)) R) ;;;
      quit
  | Some [] | None => ret tt
  end.

(** [get_table_details] on the tree that [os.walk] finds. *)
Definition get_table_details_in (release_dir : str) (R : ReleaseType)
    : M (list entry) :=
  fun w =>
    let top := path_join release_dir (value R) in
    (get_table_details (walk w top) R, w, [Walk top]).

(** [for table_name, dirname, filename in table_details]. *)
Fixpoint import_all (table_details : list entry) : M unit :=
  match table_details with
  | [] => ret tt
  | (table_name, dirname, filename) :: rest =>
      import_text_file table_name dirname filename ;;; import_all rest
  end.

(** [for release_type in [...]], threading [file_imported]. *)
Fixpoint release_loop (package_location : str) (Rs : list ReleaseType)
    (file_imported : bool) : M bool :=
  match Rs with
  | [] => ret file_imported
  | R :: Rs' =>
      table_details <- get_table_details_in package_location R ;;
      match table_details with
      | [] =>
          logging WARNING (WARNING_NO_MATCHING_FILES R) ;;;
          release_loop package_location Rs' file_imported
      | _ :: _ =>
          execute_ddl R ;;;
          import_all table_details ;;;
          validate_targetcomponentid R ;;;
          release_loop package_location Rs' true
      end
  end.

(** [input(PROMPT_CLOSE)]. *)
Definition input : M unit :=
  fun w =>
    let '(w', o) := console_input w in
    (match o with Some e => Raise (OtherError e) | None => Ok tt end,
     w', [Input]).

(** The [try ... finally] of the main block, once the client exists. *)
Definition load_and_serve (package_location : str) : M unit :=
  try_finally
    (file_imported <- release_loop package_location [FULL; SNAPSHOT] false ;;
     if file_imported
     then start_ui ;;; logging INFO INFO_UI_RUNNING ;;; input
     else ret tt)
    close.

(** The zip branch: the package location to load from. *)
Definition unpack (package_location temp_dir : str) : M str :=
  if ends_with (py ".zip") package_location then
    fun w =>
      if negb (isfile w package_location)
      then (logging ERROR ERROR_ZIP_NOT_FOUND ;;; quit) w
      else
        (logging INFO (INFO_EXTRACTING_PACKAGE package_location) ;;;
         (fun w1 =>
            let '(w2, o) := extractall w1 package_location temp_dir in
            match o with
            | Some e =>
                (Raise (OtherError e), w2,
                 [ExtractAll package_location temp_dir])
            | None =>
                (match listdir w2 temp_dir with
                 | first :: _ => Ok (path_join temp_dir first)
                 | [] => Raise IndexError
                 end, w2, [ExtractAll package_location temp_dir])
            end)) w
  else ret package_location.

(** [with tempfile.TemporaryDirectory() as temp_dir: body]. *)
Definition with_temp_dir {A} (body : str -> M A) : M A :=
  fun w =>
    let '(w1, d) := mkdtemp w in
    let '(r, w2, t) := body d w1 in
    (r, rmtree w2 d, MkTemp d :: t ++ [RmTemp d]).

(** The block under [if __name__ == "__main__"], for the parsed arguments
    [--package] and [--db]. *)
Definition main (package_location DB_FILE : str) : M unit :=
  fun w =>
    match validate_package_path package_location w with
    | (Raise (ValueError _), w1, t1) =>
        let '(r, w2, t2) :=
          (logging ERROR ERROR_INVALID_PACKAGE ;;; emit PrintHelp ;;; quit) w1
        in (r, w2, t1 ++ t2)
    | (Raise e, w1, t1) => (Raise e, w1, t1)
    | (Ok _, w1, t1) =>
        let '(r, w2, t2) :=
          with_temp_dir (fun temp_dir =>
            location <- unpack package_location temp_dir ;;
            DuckDBClient DB_FILE ;;;
            load_and_serve location) w1
        in (r, w2, t1 ++ t2)
    end.

End Driver.

(* ================================================================== *)
(** * What a pattern matches, stated without the search order *)
(* ================================================================== *)

Section Semantics.
Context {U : Unicode}.

Definition within (hi : option nat) (n : nat) : Prop :=
  match hi with
  | Some h => n <= h
  | None => True
  end.

(** [sem r pos s c pos' s' c']: from position [pos], with [s] ahead and the
    groups [c], the pattern [r] can consume text up to position [pos'],
    leaving [s'] ahead and the groups [c']. *)
Fixpoint sem (r : regex) (pos : nat) (s : str) (c : caps)
    (pos' : nat) (s' : str) (c' : caps) : Prop :=
  match r with
  | Lit w => s = w ++ s' /\ pos' = pos + List.length w /\ c' = c
  | Seq r1 r2 =>
      exists p1 s1 c1, sem r1 pos s c p1 s1 c1 /\ sem r2 p1 s1 c1 pos' s' c'
  | Alt r1 r2 => sem r1 pos s c pos' s' c' \/ sem r2 pos s c pos' s' c'
  | Opt r1 => sem r1 pos s c pos' s' c' \/ (pos' = pos /\ s' = s /\ c' = c)
  | Rep p lo hi =>
      exists w, s = w ++ s' /\ forallb (in_class p) w = true
                /\ lo <= List.length w /\ within hi (List.length w)
                /\ pos' = pos + List.length w /\ c' = c
  | Grp i r1 =>
      exists c1, sem r1 pos s c pos' s' c1
                 /\ c' = (i, firstn (pos' - pos) s) :: c1
  | Bol => pos = 0 /\ pos' = pos /\ s' = s /\ c' = c
  | Eol => (s = [] \/ s = [nl]) /\ pos' = pos /\ s' = s /\ c' = c
  end.

(** Every character of the class is an upper-case ASCII letter. *)
Fixpoint class_upper (p : cclass) : bool :=
  match p with
  | CRange lo hi => N.leb 65 lo && N.leb hi 90
  | COne x => is_ascii_upper x
  | CUnion a b => class_upper a && class_upper b
  | CWord | CDigit => false
  end.

(** Every match of the pattern takes an upper-case ASCII letter. *)
Fixpoint needs_upper (r : regex) : bool :=
  match r with
  | Lit w => existsb is_ascii_upper w
  | Seq r1 r2 => needs_upper r1 || needs_upper r2
  | Alt r1 r2 => needs_upper r1 && needs_upper r2
  | Opt _ => false
  | Rep p lo _ => negb (Nat.eqb lo 0) && class_upper p
  | Grp _ r1 => needs_upper r1
  | Bol | Eol => false
  end.

End Semantics.

(* ================================================================== *)
(** * The file-name grammar as the specification words it *)
(* ================================================================== *)

Section Grammar.
Context {U : Unicode}.

(** The parts of a release file name. *)
Record rf2_name := {
  leading_x : bool;             (* the optional leading x of fileKind *)
  kind_core : str;              (* sct or der *)
  content : str;                (* contentType *)
  refset_digits : str;          (* the optional refset id *)
  summary_token : option str;   (* the optional summary word *)
  language : option str;        (* the optional language code, hyphen excluded *)
  namespace : str;              (* INT or two upper-case letters *)
  namespace_digits : str;       (* the 7 digits after it *)
  date : str                    (* versionDate *)
}.

Definition all_of (p : cclass) (w : str) : Prop :=
  forallb (in_class p) w = true.

Definition lang_class : cclass := CUnion (CRange 97%N 122%N) (COne 45%N).
Definition upper_class : cclass := CRange 65%N 90%N.

Definition well_formed (n : rf2_name) : Prop :=
  (kind_core n = py "sct" \/ kind_core n = py "der")
  /\ (content n <> [] /\ all_of CWord (content n))
  /\ (refset_digits n = []
      \/ (6 <= List.length (refset_digits n) <= 18
          /\ all_of CDigit (refset_digits n)))
  /\ (match summary_token n with
      | Some w => w <> [] /\ all_of CWord w
      | None => True
      end)
  /\ (match language n with
      | Some l => 2 <= List.length l <= 8 /\ all_of lang_class l
      | None => True
      end)
  /\ (namespace n = py "INT"
      \/ (List.length (namespace n) = 2 /\ all_of upper_class (namespace n)))
  /\ (List.length (namespace_digits n) = 7 /\ all_of CDigit (namespace_digits n))
  /\ (List.length (date n) = 8 /\ all_of CDigit (date n)).

Definition opt_str (o : option str) : str :=
  match o with
  | Some w => w
  | None => []
  end.

(** The text of a name; [sep] stands between countryNamespace and
    versionDate. *)
Definition render (sep : str) (R : ReleaseType) (n : rf2_name) : str :=
  (if leading_x n then py "x" else []) ++ kind_core n ++ py "2"
  ++ py "_" ++ content n
  ++ py "_" ++ refset_digits n ++ opt_str (summary_token n) ++ value R
  ++ match language n with Some l => py "-" ++ l | None => [] end
  ++ py "_" ++ namespace n ++ namespace_digits n
  ++ sep ++ date n ++ py "." ++ py "txt".

(** Section 4.1 as written:
    <fileKind>_<contentType>_<contentSubType>_<countryNamespace><versionDate>.txt *)
Definition spec_grammar (R : ReleaseType) (f : str) : Prop :=
  exists n, well_formed n /\ f = render [] R n.

(** The same grammar with an underscore between countryNamespace and
    versionDate. *)
Definition rf2_grammar (R : ReleaseType) (f : str) : Prop :=
  exists n, well_formed n /\ f = render (py "_") R n.

(** The classifier: the three groups of an accepted name. *)
Definition classify (R : ReleaseType) (f : str)
    : option (option str * option str * option str) :=
  match re_match (filter_regex R) f with
  | Some m => Some (group m 1, group m 2, group m 3)
  | None => None
  end.

End Grammar.

(* ================================================================== *)
(** * Two small worlds to run the driver in *)
(* ================================================================== *)

(** A world without files, in which every collaborator call succeeds and
    queries return no rows. *)
Definition empty_world : World :=
  {| state := unit;
     script_dir := py "/opt/loader";
     isdir := fun _ _ => false;
     isfile := fun _ _ => false;
     walk := fun _ _ => [];
     listdir := fun _ _ => [];
     mkdtemp := fun w => (w, py "/tmp/tmp0");
     rmtree := fun w _ => w;
     extractall := fun w _ _ => (w, None);
     connect := fun w _ => (w, None);
     execute := fun w _ => (w, Done);
     run_sql_file := fun w _ => (w, Rows []);
     console_input := fun w => (w, None);
     close_connection := fun w => w |}.

(** A world with one Snapshot concept file under [/pkg], in which the
    validation script answers [validation] and everything else succeeds. *)
Definition one_file_world (validation : sql_outcome) : World :=
  {| state := unit;
     script_dir := py "/opt/loader";
     isdir := fun _ p => str_eqb p (py "/pkg");
     isfile := fun _ _ => false;
     walk := fun _ top =>
       if str_eqb top (py "/pkg/Snapshot")
       then [(py "/pkg/Snapshot/Terminology",
              [py "sct2_Concept_Snapshot_US1000124_20240101.txt"])]
       else [];
     listdir := fun _ _ => [];
     mkdtemp := fun w => (w, py "/tmp/tmp0");
     rmtree := fun w _ => w;
     extractall := fun w _ _ => (w, None);
     connect := fun w _ => (w, None);
     execute := fun w _ => (w, Done);
     run_sql_file := fun w p =>
       (w, if ends_with (py "_targetcomponentid.sql") p
           then validation else Rows []);
     console_input := fun w => (w, None);
     close_connection := fun w => w |}.

(* ================================================================== *)
(** * Sample file names *)
(* ================================================================== *)

Definition concept_us : str :=
  py "sct2_Concept_Snapshot_US1000124_20240101.txt".

Definition refsetdescriptor_int : str :=
  py "der2_Refset_RefsetDescriptorSnapshot_INT_20240101.txt".

Definition refsetdescriptor_us : str :=
  py "der2_Refset_RefsetDescriptorSnapshot_US1000124_20240101.txt".

Definition simple_int : str :=
  py "der2_Refset_SimpleSnapshot_INT_20240101.txt".

Definition simple_us : str :=
  py "der2_Refset_SimpleSnapshot_US1000124_20240101.txt".

(** A derivative file name without a summary. *)
Definition no_summary_us : str :=
  py "der2_Refset_Snapshot_US1000124_20240101.txt".

(** The match objects that [re.match] returns for [refsetdescriptor_us],
    [simple_us] and [no_summary_us]. *)
Definition refsetdescriptor_match : pymatch :=
  {| m_len := 59;
     m_groups := [(5, py "US"); (3, py "RefsetDescriptor");
                  (2, py "Refset"); (1, py "der")] |}.

Definition simple_match : pymatch :=
  {| m_len := 49;
     m_groups := [(5, py "US"); (3, py "Simple");
                  (2, py "Refset"); (1, py "der")] |}.

Definition no_summary_match : pymatch :=
  {| m_len := 43;
     m_groups := [(5, py "US"); (2, py "Refset"); (1, py "der")] |}.

(** A plan of two entries, the reference set first. *)
Definition refset_entry : entry :=
  (py "simplerefset_s", py "/data/Snapshot/Refset/Content", simple_us).

Definition concept_entry : entry :=
  (py "concept_s", py "/data/sct2/Snapshot/Terminology", concept_us).

(* ================================================================== *)
(** * Vocabulary of the statements *)
(* ================================================================== *)

Unset Implicit Arguments.

Section Vocabulary.
Context {U : Unicode}.

(** ** Parts of a parse *)

Definition summary_ok (o : option str) : Prop :=
  match o with
  | Some w => w <> [] /\ all_of CWord w
  | None => True
  end.

Definition opt_cap (i : nat) (o : option str) (c : caps) : caps :=
  match o with
  | Some w => (i, w) :: c
  | None => c
  end.

Definition language_ok (o : option str) : Prop :=
  match o with
  | Some l => 2 <= List.length l <= 8 /\ all_of lang_class l
  | None => True
  end.

Definition language_text (o : option str) : str :=
  match o with
  | Some l => py "-" ++ l
  | None => []
  end.

Definition namespace_ok (ns : str) : Prop :=
  ns = py "INT" \/ (List.length ns = 2 /\ all_of upper_class ns).

(** The names the filter lets through. *)
Definition accepted_form (R : ReleaseType) (f : str) : Prop :=
  rf2_grammar R f \/ exists w, f = w ++ [nl] /\ rf2_grammar R w.

(** ** Lower case *)

(** Lower-casing of one ASCII character. *)
Definition ascii_lower_char (c : char) : char :=
  if is_ascii_upper c then (c + 32)%N else c.

Definition no_upper (s : str) : Prop :=
  forallb (fun c => negb (is_ascii_upper c)) s = true.

(** [str.lower] leaves no upper-case ASCII letter, provided the lower-case
    expansion of a non-ASCII character contains none. *)
Definition lower_expansion_ok : Prop :=
  forall s i x, nth_error s i = Some x -> is_ascii x = false ->
                forall c, In c (uni_lower s i) -> is_ascii_upper c = false.

End Vocabulary.

(** ** The order of a plan *)

(** [x] may stand before [y] in an ascending plan: the key of [y] is not
    below the key of [x]. *)
Definition key_le (x y : entry) : Prop :=
  key_ltb (sort_key y) (sort_key x) = false.

(** ** Traces of a run *)

Section TraceVocabulary.
Context {U : Unicode} {Wd : World}.

Definition res_of {A} (x : result A * state * list event) : result A :=
  fst (fst x).
Definition evs_of {A} (x : result A * state * list event) : list event :=
  snd x.

(** The validation script of [R] ran and returned [rows]. *)
Definition validation_ran (R : ReleaseType) (rows : list row) : event :=
  RunSqlFile SQL_RESOURCES_PATH (validation_filename R) (Rows rows).

(** What [validate_targetcomponentid] does on the fatal path. *)
Definition fatal_tail (R : ReleaseType) (rows : list row) : list event :=
  [validation_ran R rows;
   Log INFO (INFO_SQL_EXEC_SUCCESS (validation_filename R));
   Log ERROR (FOUND_INVALID_TARGETCOMPONENTIDS (List.length rows) R)].

Definition nonfatal (ev : event) : Prop :=
  forall R r rs, ev <> validation_ran R (r :: rs).

Definition no_ui (ev : event) : Prop :=
  forall o, ev <> Execute UI_START_COMMAND o.

Definition no_help (ev : event) : Prop := ev <> PrintHelp.

(** No fatal validation, no UI start, no usage help. *)
Definition quiet (t : list event) : Prop :=
  Forall nonfatal t /\ Forall no_ui t /\ Forall no_help t.

(** No fatal validation and no usage help. *)
Definition calm (t : list event) : Prop :=
  Forall nonfatal t /\ Forall no_help t.

Definition sql_result (o : sql_outcome) : option (list row) :=
  match o with
  | Rows rows => Some rows
  | SqlRaises _ | FetchRaises _ => None
  end.

Definition sql_logs (dirname sql_filename : str) (o : sql_outcome)
    : list event :=
  match o with
  | Rows _ => [Log INFO (INFO_SQL_EXEC_SUCCESS sql_filename)]
  | SqlRaises e =>
      [Log ERROR (ERROR_SQL_EXEC_FAILED (path_join dirname sql_filename) e)]
  | FetchRaises e =>
      [Log INFO (INFO_SQL_EXEC_SUCCESS sql_filename);
       Log ERROR (ERROR_SQL_EXEC_FAILED (path_join dirname sql_filename) e)]
  end.

(** A run of the loop either stays clear of the fatal path, or ends on it:
    [SystemExit] right after the validation script returned rows and the
    count was logged. *)
Definition loop_outcome {A} (x : result A * state * list event) : Prop :=
  quiet (evs_of x)
  \/ (res_of x = Raise SystemExit
      /\ exists pre R r rs,
           quiet pre /\ evs_of x = pre ++ fatal_tail R (r :: rs)).

(** A run of the main block either never takes the fatal path, or ends on
    it: after the count is logged the connection is closed, the temporary
    directory is removed, and nothing else happens. *)
Definition closing (tail : list event) : list event :=
  [Close; Log DEBUG DEBUG_CONNECTION_CLOSED] ++ tail.

Definition run_outcome {A} (tail : list event)
    (x : result A * state * list event) : Prop :=
  calm (evs_of x)
  \/ (res_of x = Raise SystemExit
      /\ exists pre R r rs,
           quiet pre
           /\ evs_of x = pre ++ fatal_tail R (r :: rs) ++ closing tail).

(** The part of [main] that follows a valid package path. *)
Definition load_package (package_location DB_FILE : str) : M unit :=
  with_temp_dir (fun temp_dir =>
    bind (unpack package_location temp_dir) (fun location =>
    bind (DuckDBClient DB_FILE) (fun _ => load_and_serve location))).

End TraceVocabulary.

(* ================================================================== *)
(** * Further vocabulary: literal patterns, replacement, calls *)
(* ================================================================== *)

(** A pattern made of literal text and groups only. *)
Fixpoint is_literal (r : regex) : bool :=
  match r with
  | Lit _ => true
  | Seq r1 r2 => is_literal r1 && is_literal r2
  | Grp _ r1 => is_literal r1
  | Alt _ _ | Opt _ | Rep _ _ _ | Bol | Eol => false
  end.

(** The text such a pattern matches and the groups it captures. *)
Fixpoint lit_text (r : regex) : str :=
  match r with
  | Lit w => w
  | Seq r1 r2 => lit_text r1 ++ lit_text r2
  | Grp _ r1 => lit_text r1
  | Alt _ _ | Opt _ | Rep _ _ _ | Bol | Eol => []
  end.

Fixpoint lit_caps (r : regex) (c : caps) : caps :=
  match r with
  | Seq r1 r2 => lit_caps r2 (lit_caps r1 c)
  | Grp i r1 => (i, lit_text r1) :: lit_caps r1 c
  | Lit _ | Alt _ _ | Opt _ | Rep _ _ _ | Bol | Eol => c
  end.

(** [s.replace(old, new)] for a non-empty [old]: the occurrences of [old]
    are replaced from the left, without overlap; [skip] counts the characters
    of the last occurrence still to be passed over. *)
Fixpoint replace_from (old new : str) (skip : nat) (s : str) : str :=
  match skip with
  | S k =>
      match s with
      | [] => []
      | _ :: s' => replace_from old new k s'
      end
  | O =>
      match s with
      | [] => []
      | x :: s' =>
          if starts_with old s
          then new ++ replace_from old new (pred (List.length old)) s'
          else x :: replace_from old new 0 s'
      end
  end.

Definition str_replace (old new s : str) : str := replace_from old new 0 s.

(** What a template expands to on the match of a literal pattern. *)
Definition literal_expansion (r : regex) (tpl : list titem) : str :=
  match expand tpl {| m_len := List.length (lit_text r);
                      m_groups := lit_caps r [] |} with
  | Ok out => out
  | Raise _ => []
  end.

Section ScanVocabulary.
Context {U : Unicode}.

(** The filter accepts the name. *)
Definition accepts (R : ReleaseType) (f : str) : bool :=
  match re_match (filter_regex R) f with
  | Some _ => true
  | None => false
  end.

(** The filter accepts the name as a derivative file ([der]) and its summary
    group is absent. *)
Definition lacks_summary (R : ReleaseType) (f : str) : bool :=
  match re_match (filter_regex R) f with
  | Some m =>
      opt_eqb (group m 1) (py "der")
      && match group m 3 with Some _ => false | None => true end
  | None => false
  end.

(** The file [f] is listed in directory [dirname] of the tree. *)
Definition listed (tree : list (str * list str)) (dirname f : str) : Prop :=
  exists files, In (dirname, files) tree /\ In f files.

(** How many listed files the filter accepts. *)
Definition accepted_count (R : ReleaseType) (tree : list (str * list str))
    : nat :=
  list_sum (map (fun df => List.length (filter (accepts R) (snd df))) tree).

(** The entries a directory contributes when no name fails. *)
Definition entries_of (R : ReleaseType) (dirname : str) (files : list str)
    : list entry :=
  flat_map (fun f => match table_name_of R f with
                     | Some (Ok n) => [(n, dirname, f)]
                     | _ => []
                     end) files.

(** A tree, directory by directory. *)
Definition tree_entries (R : ReleaseType) (tree : list (str * list str))
    : list entry :=
  flat_map (fun df => entries_of R (fst df) (snd df)) tree.

Definition tree_lacks_summary (R : ReleaseType)
    (tree : list (str * list str)) : bool :=
  existsb (fun df => existsb (lacks_summary R) (snd df)) tree.

End ScanVocabulary.

Fixpoint drop_while (p : char -> bool) (s : str) : str :=
  match s with
  | [] => []
  | x :: s' => if p x then drop_while p s' else s
  end.

(** Reading a name from its end: past the extension, the date, the
    namespace digits and the namespace letters, then past lower-case letters
    and hyphens, stands the initial of the release type's label. *)
Definition label_initial (f : str) : option char :=
  hd_error
    (drop_while (fun c => in_range 97%N 122%N c || char_eqb c 45%N)
       (skipn 1 (drop_while is_ascii_upper (skipn 20 (rev f))))).

Section CallVocabulary.
Context {U : Unicode} {Wd : World}.

Definition world_of {A} (x : result A * state * list event) : state :=
  snd (fst x).

(** The statement that imports a plan entry. *)
Definition copy_of (x : entry) : statement :=
  COPY (table_of x) (path_join (dir_of x) (file_of x)).

(** The calls made on the connection: a script run by [execute_sql_file]
    or a statement passed to [conn.execute]. *)
Inductive call :=
| Script (sql_filename : str)
| Statement (s : statement).

Definition calls (t : list event) : list call :=
  flat_map (fun ev => match ev with
                      | RunSqlFile _ fn _ => [Script fn]
                      | Execute s _ => [Statement s]
                      | _ => []
                      end) t.

(** No call on the connection. *)
Definition idle (t : list event) : Prop := calls t = [].

(** What follows the loop when a file was imported. *)
Definition serve_ui : M unit :=
  bind start_ui (fun _ =>
  bind (logging INFO INFO_UI_RUNNING) (fun _ => input)).

End CallVocabulary.

(** How often the connection is closed. *)
Definition is_close (ev : event) : bool :=
  match ev with
  | Close => true
  | _ => false
  end.

Definition closes (t : list event) : nat := List.length (filter is_close t).

(** A world whose only file is the archive [/rel.zip], which has no
    entries: extraction succeeds and leaves the directory empty. *)
Definition empty_archive_world : World :=
  {| state := unit;
     script_dir := py "/opt/loader";
     isdir := fun _ _ => false;
     isfile := fun _ p => str_eqb p (py "/rel.zip");
     walk := fun _ _ => [];
     listdir := fun _ _ => [];
     mkdtemp := fun w => (w, py "/tmp/tmp0");
     rmtree := fun w _ => w;
     extractall := fun w _ _ => (w, None);
     connect := fun w _ => (w, None);
     execute := fun w _ => (w, Done);
     run_sql_file := fun w _ => (w, Rows []);
     console_input := fun w => (w, None);
     close_connection := fun w => w |}.

(** A tree with a reference-set directory (one accepted name, one name the
    filter rejects) and a terminology directory, and the plan it yields. *)
Definition sample_tree : list (str * list str) :=
  [(py "/pkg/Snapshot/Refset/Content", [simple_us; py "README.txt"]);
   (py "/pkg/sct2/Snapshot/Terminology", [concept_us])].

Definition sample_plan : list entry :=
  [(py "concept_s", py "/pkg/sct2/Snapshot/Terminology", concept_us);
   (py "simplerefset_s", py "/pkg/Snapshot/Refset/Content", simple_us)].

(** The Snapshot plan in [one_file_world]. *)
Definition one_file_plan : list entry :=
  [(py "concept_s", py "/pkg/Snapshot/Terminology", concept_us)].

(* ================================================================== *)
(** * The matcher finds a match exactly when the pattern has one *)
(* ================================================================== *)

Section MatcherTheory.
Context {U : Unicode}.

Lemma char_eqb_eq (a b : char) : char_eqb a b = true <-> a = b.
Proof. apply N.eqb_eq. Qed.

Lemma str_eqb_eq (a b : str) : str_eqb a b = true <-> a = b.
Proof.
  revert b; induction a as [|x a IH]; intros [|y b]; simpl;
    try (split; [discriminate | discriminate]); try tauto.
  rewrite andb_true_iff, char_eqb_eq, IH. split.
  - intros [-> ->]; reflexivity.
  - intros E; inversion E; auto.
Qed.

Lemma sem_span (r : regex) :
  forall pos s c pos' s' c',
    sem r pos s c pos' s' c' ->
    exists w, s = w ++ s' /\ pos' = pos + List.length w.
Proof.
  induction r as [w|r1 IH1 r2 IH2|r1 IH1 r2 IH2|r1 IH1|p lo hi|i r1 IH1| |];
    simpl; intros pos s c pos' s' c' H.
  - destruct H as (-> & -> & _). eauto.
  - destruct H as (p1 & s1 & c1 & H1 & H2).
    apply IH1 in H1 as (w1 & -> & ->). apply IH2 in H2 as (w2 & -> & ->).
    exists (w1 ++ w2). rewrite <- app_assoc, length_app. split; [reflexivity|lia].
  - destruct H as [H|H]; eauto.
  - destruct H as [H|(-> & -> & _)]; eauto.
    exists []. split; [reflexivity|simpl; lia].
  - destruct H as (w & -> & _ & _ & _ & -> & _). eauto.
  - destruct H as (c1 & H & _). eauto.
  - destruct H as (_ & -> & -> & _). exists []. split; [reflexivity|simpl; lia].
  - destruct H as (_ & -> & -> & _). exists []. split; [reflexivity|simpl; lia].
Qed.

Section WithAnswer.
Variable A : Type.
Implicit Type k : cont A.

Lemma lit_match_sound (w : str) :
  forall k pos s c a,
    lit_match w k pos s c = Some a ->
    exists s', s = w ++ s' /\ k (pos + List.length w) s' c = Some a.
Proof.
  induction w as [|x w IH]; simpl; intros k pos s c a H.
  - exists s. rewrite Nat.add_0_r. auto.
  - destruct s as [|y s]; [discriminate|].
    destruct (char_eqb x y) eqn:E; [|discriminate].
    apply char_eqb_eq in E as ->.
    apply IH in H as (s' & -> & H). exists s'. split; [reflexivity|].
    rewrite <- H. f_equal. lia.
Qed.

Lemma lit_match_complete (w : str) :
  forall k pos s' c,
    lit_match w k pos (w ++ s') c = k (pos + List.length w) s' c.
Proof.
  induction w as [|x w IH]; simpl; intros k pos s' c.
  - rewrite Nat.add_0_r. reflexivity.
  - unfold char_eqb at 1. rewrite N.eqb_refl, IH. f_equal. lia.
Qed.

Lemma rep_greedy_sound (p : cclass) :
  forall s lo hi k pos c a,
    rep_greedy p lo hi k pos s c = Some a ->
    exists w s', s = w ++ s' /\ forallb (in_class p) w = true
                 /\ lo <= List.length w /\ within hi (List.length w)
                 /\ k (pos + List.length w) s' c = Some a.
Proof.
  assert (STOP : forall s lo hi k pos c a,
             match lo with O => k pos s c | S _ => None end = Some a ->
             exists w s', s = w ++ s' /\ forallb (in_class p) w = true
                          /\ lo <= List.length w /\ within hi (List.length w)
                          /\ k (pos + List.length w) s' c = Some a).
  { intros s lo hi k pos c a H. destruct lo; [|discriminate].
    exists [], s. simpl. rewrite Nat.add_0_r.
    repeat split; auto. destruct hi; simpl; lia. }
  induction s as [|x s IH]; intros lo hi k pos c a H.
  - apply STOP. simpl in H. destruct hi as [[|h]|]; exact H.
  - simpl in H.
    assert (STEP :
      (in_class p x = true /\ hi <> Some 0 /\
       rep_greedy p (pred lo) (dec_hi hi) k (S pos) s c = Some a)
      \/ match lo with O => k pos (x :: s) c | S _ => None end = Some a).
    { destruct hi as [[|h]|]; auto;
        (destruct (in_class p x); auto;
         match type of H with
         | match ?e with _ => _ end = _ => destruct e eqn:E
         end; [left; repeat split; congruence | auto]). }
    destruct STEP as [(Hx & Hhi & Hrec)|Hstop]; [|apply STOP; exact Hstop].
    apply IH in Hrec as (w & s' & -> & Hw & Hlo & Hh & Hk).
    exists (x :: w), s'. simpl. rewrite Hx, Hw.
    repeat split; auto; try lia.
    + destruct hi as [[|h]|]; simpl in *; try congruence; lia.
    + rewrite <- Hk. f_equal. lia.
Qed.

Lemma rep_greedy_complete (p : cclass) :
  forall w lo hi k pos s' c,
    forallb (in_class p) w = true ->
    lo <= List.length w -> within hi (List.length w) ->
    k (pos + List.length w) s' c <> None ->
    rep_greedy p lo hi k pos (w ++ s') c <> None.
Proof.
  induction w as [|x w IH]; intros lo hi k pos s' c Hw Hlo Hh Hk.
  - simpl in Hlo, Hk. rewrite Nat.add_0_r in Hk.
    assert (lo = 0) as -> by lia. simpl.
    destruct s' as [|y s'].
    + simpl. destruct hi as [[|h]|]; exact Hk.
    + simpl. destruct hi as [[|h]|]; try exact Hk;
        (destruct (in_class p y); [|exact Hk];
         match goal with
         | |- match ?e with _ => _ end <> None => destruct e
         end; [discriminate|exact Hk]).
  - simpl in Hw. apply andb_true_iff in Hw as [Hx Hw]. simpl in Hlo, Hh.
    assert (REC : rep_greedy p (pred lo) (dec_hi hi) k (S pos) (w ++ s') c
                  <> None).
    { apply IH; auto; try lia.
      - destruct hi as [h|]; simpl in *; lia.
      - replace (S pos + List.length w) with (pos + List.length (x :: w))
          by (simpl; lia). exact Hk. }
    simpl. destruct hi as [[|h]|]; simpl in Hh; try lia;
      rewrite Hx;
      match goal with
      | |- match ?e with _ => _ end <> None => destruct e eqn:E
      end; try discriminate; contradiction.
Qed.

Lemma mt_sound (r : regex) :
  forall k pos s c a,
    mt r k pos s c = Some a ->
    exists pos' s' c', sem r pos s c pos' s' c' /\ k pos' s' c' = Some a.
Proof.
  induction r as [w|r1 IH1 r2 IH2|r1 IH1 r2 IH2|r1 IH1|p lo hi|i r1 IH1| |];
    simpl; intros k pos s c a H.
  - apply lit_match_sound in H as (s' & -> & H). eauto 10.
  - apply IH1 in H as (p1 & s1 & c1 & H1 & H).
    apply IH2 in H as (p2 & s2 & c2 & H2 & H). eauto 10.
  - destruct (mt r1 k pos s c) eqn:E.
    + inversion H; subst. apply IH1 in E as (p1 & s1 & c1 & H1 & E). eauto 10.
    + apply IH2 in H as (p1 & s1 & c1 & H1 & E'). eauto 10.
  - destruct (mt r1 k pos s c) eqn:E.
    + inversion H; subst. apply IH1 in E as (p1 & s1 & c1 & H1 & E). eauto 10.
    + exists pos, s, c. auto.
  - apply rep_greedy_sound in H as (w & s' & -> & Hw & Hlo & Hh & Hk).
    exists (pos + List.length w), s', c. split; [|exact Hk]. exists w. auto 10.
  - apply IH1 in H as (p1 & s1 & c1 & H1 & H). eauto 10.
  - destruct (Nat.eqb pos 0) eqn:E; [|discriminate].
    apply Nat.eqb_eq in E. exists pos, s, c. auto.
  - destruct s as [|x [|y s]]; try discriminate.
    + exists pos, [], c. auto.
    + destruct (char_eqb x nl) eqn:E; [|discriminate].
      apply char_eqb_eq in E as ->. exists pos, [nl], c. auto.
Qed.

Lemma mt_complete (r : regex) :
  forall k pos s c pos' s' c',
    sem r pos s c pos' s' c' ->
    k pos' s' c' <> None ->
    mt r k pos s c <> None.
Proof.
  induction r as [w|r1 IH1 r2 IH2|r1 IH1 r2 IH2|r1 IH1|p lo hi|i r1 IH1| |];
    simpl; intros k pos s c pos' s' c' H Hk.
  - destruct H as (-> & -> & ->). rewrite lit_match_complete. exact Hk.
  - destruct H as (p1 & s1 & c1 & H1 & H2). eauto.
  - destruct (mt r1 k pos s c) eqn:E; [discriminate|].
    destruct H as [H|H]; [|eauto].
    exfalso. eapply IH1; eauto.
  - destruct (mt r1 k pos s c) eqn:E; [discriminate|].
    destruct H as [H|(-> & -> & ->)]; [|exact Hk].
    exfalso. eapply IH1; eauto.
  - destruct H as (w & -> & Hw & Hlo & Hh & -> & ->).
    apply rep_greedy_complete; auto.
  - destruct H as (c1 & H & ->). eapply IH1; [exact H|exact Hk].
  - destruct H as (-> & -> & -> & ->). exact Hk.
  - destruct H as ([->| ->] & -> & -> & ->); [exact Hk|].
    unfold char_eqb, nl. simpl. exact Hk.
Qed.

End WithAnswer.

(** [re.match] returns a match exactly when the pattern has one at the start
    of the subject, and the match it returns is one of them. *)
Lemma match_at_sound (r : regex) (pos : nat) (s : str) (m : pymatch) :
  match_at r pos s = Some m ->
  exists pos' s', sem r pos s [] pos' s' (m_groups m)
                  /\ m_len m = pos' - pos.
Proof.
  unfold match_at. intros H.
  apply mt_sound in H as (pos' & s' & c' & H & E).
  inversion E; subst; simpl. eauto.
Qed.

Lemma match_at_complete (r : regex) (pos : nat) (s : str) pos' s' c' :
  sem r pos s [] pos' s' c' -> match_at r pos s <> None.
Proof.
  intros H. unfold match_at. eapply mt_complete; [exact H|discriminate].
Qed.

End MatcherTheory.

(* ================================================================== *)
(** * The filter pattern and the file-name grammar *)
(* ================================================================== *)

Section FilterTheory.
Context {U : Unicode}.

Lemma firstn_exact (w s' : str) (p : nat) :
  firstn (p + List.length w - p) (w ++ s') = w.
Proof.
  replace (p + List.length w - p) with (List.length w + 0) by lia.
  rewrite firstn_app_2. simpl. apply app_nil_r.
Qed.

Lemma sem_grp_inv i r pos s c pos' s' c' :
  sem (Grp i r) pos s c pos' s' c' ->
  exists w c1, s = w ++ s' /\ sem r pos s c pos' s' c1 /\ c' = (i, w) :: c1.
Proof.
  intros (c1 & H & ->).
  destruct (sem_span _ _ _ _ _ _ _ H) as (w & -> & ->).
  exists w, c1. rewrite firstn_exact. auto.
Qed.

Lemma sem_grp_intro i r pos w s' c pos' c1 :
  sem r pos (w ++ s') c pos' s' c1 ->
  sem (Grp i r) pos (w ++ s') c pos' s' ((i, w) :: c1).
Proof.
  intros H. exists c1. split; [exact H|].
  destruct (sem_span _ _ _ _ _ _ _ H) as (w' & E & ->).
  apply app_inv_tail in E as <-. rewrite firstn_exact. reflexivity.
Qed.

Lemma sem_seq_inv r1 r2 pos s c pos' s' c' :
  sem (Seq r1 r2) pos s c pos' s' c' ->
  exists p1 s1 c1, sem r1 pos s c p1 s1 c1 /\ sem r2 p1 s1 c1 pos' s' c'.
Proof. exact (fun H => H). Qed.

Lemma sem_seq_intro r1 r2 pos s c p1 s1 c1 pos' s' c' :
  sem r1 pos s c p1 s1 c1 -> sem r2 p1 s1 c1 pos' s' c' ->
  sem (Seq r1 r2) pos s c pos' s' c'.
Proof. intros H1 H2. exists p1, s1, c1. auto. Qed.

Lemma sem_lit_inv w pos s c pos' s' c' :
  sem (Lit w) pos s c pos' s' c' -> s = w ++ s' /\ c' = c.
Proof. intros (-> & _ & ->). auto. Qed.

Lemma sem_lit_intro w pos s' c :
  sem (Lit w) pos (w ++ s') c (pos + List.length w) s' c.
Proof. simpl. auto. Qed.

Lemma sem_rep_intro p lo hi w pos s' c :
  forallb (in_class p) w = true -> lo <= List.length w ->
  within hi (List.length w) ->
  sem (Rep p lo hi) pos (w ++ s') c (pos + List.length w) s' c.
Proof. intros. exists w. auto 10. Qed.

(** ** What each part of the pattern takes *)

Lemma file_type_inv pos s c pos' s' c' :
  sem file_type pos s c pos' s' c' ->
  exists (x : bool) core,
    (core = py "sct" \/ core = py "der")
    /\ s = (if x then py "x" else []) ++ core ++ py "2" ++ s'
    /\ c' = (1, core) :: c.
Proof.
  unfold file_type. intros H.
  apply sem_seq_inv in H as (p1 & s1 & c1 & Hx & H).
  apply sem_seq_inv in H as (p2 & s2 & c2 & Hg & (E2 & _ & Ec)).
  apply sem_grp_inv in Hg as (core & c3 & E1 & Hcore & ->).
  assert (Hc : (core = py "sct" \/ core = py "der") /\ c3 = c1).
  { cbn [sem] in Hcore. destruct Hcore as [(E & _ & ->)|(E & _ & ->)];
      rewrite E1 in E; apply app_inv_tail in E; auto. }
  destruct Hc as [Hc ->]. subst s1 s2 c'.
  destruct Hx as [(-> & _ & ->)|(_ & E & ->)].
  - exists true, core. auto.
  - exists false, core. rewrite <- E. auto.
Qed.

Lemma file_type_intro (x : bool) core pos c :
  core = py "sct" \/ core = py "der" ->
  exists pos', forall s',
    sem file_type pos ((if x then py "x" else []) ++ core ++ py "2" ++ s') c
        pos' s' ((1, core) :: c).
Proof.
  intros Hcore. unfold file_type.
  assert (Hg : exists p2, forall s',
               sem (Alt (Lit (py "sct")) (Lit (py "der")))
                 (if x then pos + 1 else pos) (core ++ py "2" ++ s') c
                 p2 (py "2" ++ s') c).
  { destruct Hcore as [-> | ->]; eexists; intros s'; [left|right];
      apply sem_lit_intro. }
  destruct Hg as (p2 & Hg). eexists. intros s'. specialize (Hg s').
  eapply sem_seq_intro
    with (p1 := if x then pos + 1 else pos) (s1 := core ++ py "2" ++ s')
         (c1 := c).
  - destruct x; [left|right]; simpl; auto.
  - eapply sem_seq_intro; [|apply sem_lit_intro].
    apply sem_grp_intro. exact Hg.
Qed.

Lemma content_type_inv pos s c pos' s' c' :
  sem content_type pos s c pos' s' c' ->
  exists w, w <> [] /\ all_of CWord w /\ s = w ++ s' /\ c' = (2, w) :: c.
Proof.
  intros H. apply sem_grp_inv in H as (w & c1 & -> & H & ->).
  destruct H as (w' & E & Hw & Hlo & _ & _ & ->).
  apply app_inv_tail in E as <-.
  exists w. repeat split; auto. intros ->. simpl in Hlo. lia.
Qed.

Lemma nonempty_length (w : str) : w <> [] -> 1 <= List.length w.
Proof. destruct w; [congruence|simpl; lia]. Qed.

Lemma content_type_intro w pos c :
  w <> [] -> all_of CWord w ->
  exists pos', forall s',
    sem content_type pos (w ++ s') c pos' s' ((2, w) :: c).
Proof.
  intros Hne Hw. exists (pos + List.length w). intros s'.
  apply sem_grp_intro. apply sem_rep_intro; simpl; auto using nonempty_length.
Qed.

Lemma refset_id_inv pos s c pos' s' c' :
  sem refset_id pos s c pos' s' c' ->
  exists w, (w = [] \/ (6 <= List.length w <= 18 /\ all_of CDigit w))
            /\ s = w ++ s' /\ c' = c.
Proof.
  intros [(w & -> & Hw & Hlo & Hhi & _ & ->)|(_ & -> & ->)].
  - exists w. simpl in Hhi. auto.
  - exists []. auto.
Qed.

Lemma refset_id_intro w pos c :
  w = [] \/ (6 <= List.length w <= 18 /\ all_of CDigit w) ->
  exists pos', forall s', sem refset_id pos (w ++ s') c pos' s' c.
Proof.
  intros [-> |((Hlo & Hhi) & Hw)].
  - exists pos. intros s'. right. auto.
  - exists (pos + List.length w). intros s'. left.
    apply sem_rep_intro; auto.
Qed.

Lemma summary_inv pos s c pos' s' c' :
  sem summary pos s c pos' s' c' ->
  exists o, summary_ok o /\ s = opt_str o ++ s' /\ c' = opt_cap 3 o c.
Proof.
  intros [H|(_ & -> & ->)].
  - apply sem_grp_inv in H as (w & c1 & -> & H & ->).
    destruct H as (w' & E & Hw & Hlo & _ & _ & ->).
    apply app_inv_tail in E as <-.
    exists (Some w). simpl. repeat split; auto. intros ->. simpl in Hlo. lia.
  - exists None. simpl. auto.
Qed.

Lemma summary_intro o pos c :
  summary_ok o ->
  exists pos', forall s',
    sem summary pos (opt_str o ++ s') c pos' s' (opt_cap 3 o c).
Proof.
  destruct o as [w|]; cbn [summary_ok opt_str opt_cap]; unfold summary.
  - intros [Hne Hw]. exists (pos + List.length w). intros s'. left.
    apply sem_grp_intro. apply sem_rep_intro; simpl; auto using nonempty_length.
  - intros _. exists pos. intros s'. right. auto.
Qed.

Lemma language_code_inv pos s c pos' s' c' :
  sem language_code pos s c pos' s' c' ->
  exists o, language_ok o /\ s = language_text o ++ s'
            /\ c' = opt_cap 4 (option_map (app (py "-")) o) c.
Proof.
  intros [H|(_ & -> & ->)].
  - apply sem_grp_inv in H as (w & c1 & -> & H & ->).
    destruct H as (p1 & s1 & c2 & (E1 & _ & ->) & (l & -> & Hl & Hlo & Hhi & _ & ->)).
    rewrite app_assoc in E1. apply app_inv_tail in E1 as ->.
    exists (Some l). simpl in Hhi. simpl. repeat split; auto.
  - exists None. simpl. auto.
Qed.

Lemma language_code_intro o pos c :
  language_ok o ->
  exists pos' c', forall s',
    sem language_code pos (language_text o ++ s') c pos' s' c'.
Proof.
  destruct o as [l|]; cbn [language_ok language_text]; unfold language_code.
  - intros [[Hlo Hhi] Hl].
    exists (pos + 1 + List.length l), ((4, py "-" ++ l) :: c). intros s'. left.
    apply sem_grp_intro.
    eapply sem_seq_intro with (p1 := pos + 1) (s1 := l ++ s') (c1 := c).
    + rewrite <- app_assoc. apply sem_lit_intro.
    + apply sem_rep_intro; simpl; auto.
  - intros _. exists pos, c. intros s'. right. auto.
Qed.

Lemma country_namespace_inv pos s c pos' s' c' :
  sem country_namespace pos s c pos' s' c' ->
  exists ns d, namespace_ok ns /\ List.length d = 7 /\ all_of CDigit d
               /\ s = ns ++ d ++ s' /\ c' = (5, ns) :: c.
Proof.
  unfold country_namespace. intros H.
  apply sem_seq_inv in H as (p1 & s1 & c1 & Hg & (d & -> & Hd & Hlo & Hhi & _ & ->)).
  apply sem_grp_inv in Hg as (ns & c2 & -> & Hns & ->).
  exists ns, d. simpl in Hhi.
  assert (namespace_ok ns /\ c2 = c) as [Hok ->].
  { destruct Hns as [(E & _ & ->)|(w & E & Hw & Hlo' & Hhi' & _ & ->)];
      apply app_inv_tail in E; subst.
    - split; [left|]; auto.
    - simpl in Hhi'. split; [right; split; [lia|exact Hw]|reflexivity]. }
  repeat split; auto. lia.
Qed.

Lemma country_namespace_intro ns d pos c :
  namespace_ok ns -> List.length d = 7 -> all_of CDigit d ->
  exists pos', forall s',
    sem country_namespace pos (ns ++ d ++ s') c pos' s' ((5, ns) :: c).
Proof.
  intros Hns Hlen Hd.
  exists (pos + List.length ns + List.length d). intros s'.
  unfold country_namespace.
  eapply sem_seq_intro
    with (p1 := pos + List.length ns) (s1 := d ++ s') (c1 := (5, ns) :: c).
  - apply sem_grp_intro. destruct Hns as [-> |[Hl Hu]].
    + left. apply sem_lit_intro.
    + right. apply sem_rep_intro; simpl; auto; lia.
  - apply sem_rep_intro; simpl; auto; lia.
Qed.

Lemma version_date_inv pos s c pos' s' c' :
  sem version_date pos s c pos' s' c' ->
  exists d, List.length d = 8 /\ all_of CDigit d /\ s = d ++ s' /\ c' = c.
Proof.
  intros (d & -> & Hd & Hlo & Hhi & _ & ->). simpl in Hhi.
  exists d. repeat split; auto. lia.
Qed.

Lemma version_date_intro d pos c :
  List.length d = 8 -> all_of CDigit d ->
  exists pos', forall s', sem version_date pos (d ++ s') c pos' s' c.
Proof.
  intros Hlen Hd. exists (pos + List.length d). intros s'.
  apply sem_rep_intro; simpl; auto; lia.
Qed.

End FilterTheory.

Section FilterGrammar.
Context {U : Unicode}.

Ltac seq_inv H p s c H1 :=
  apply sem_seq_inv in H as (p & s & c & H1 & H).

(** Every match of the filter pattern is a parse of the name. *)
Lemma filter_regex_inv R f pos' s' c' :
  sem (filter_regex R) 0 f [] pos' s' c' ->
  exists n, well_formed n
            /\ f = render (py "_") R n ++ s' /\ (s' = [] \/ s' = [nl])
            /\ get_group 1 c' = Some (kind_core n)
            /\ get_group 2 c' = Some (content n)
            /\ get_group 3 c' = summary_token n.
Proof.
  unfold filter_regex, content_sub_type. intros H.
  seq_inv H p0 s0 c0 Hbol. destruct Hbol as (_ & _ & -> & ->).
  seq_inv H p1 s1 c1 Hft.
  apply file_type_inv in Hft as (x & core & Hcore & -> & ->).
  seq_inv H p2 s2 c2 Hu1. apply sem_lit_inv in Hu1 as (-> & ->).
  seq_inv H p3 s3 c3 Hct.
  apply content_type_inv in Hct as (ct & Hct1 & Hct2 & -> & ->).
  seq_inv H p4 s4 c4 Hu2. apply sem_lit_inv in Hu2 as (-> & ->).
  seq_inv H p5 s5 c5 Hsub.
  seq_inv Hsub q1 t1 d1 Hrid.
  apply refset_id_inv in Hrid as (rid & Hrid & -> & ->).
  seq_inv Hsub q2 t2 d2 Hsum.
  apply summary_inv in Hsum as (sm & Hsm & -> & ->).
  seq_inv Hsub q3 t3 d3 Hrt. apply sem_lit_inv in Hrt as (-> & ->).
  apply language_code_inv in Hsub as (lg & Hlg & -> & ->).
  seq_inv H p6 s6 c6 Hu3. apply sem_lit_inv in Hu3 as (-> & ->).
  seq_inv H p7 s7 c7 Hns.
  apply country_namespace_inv in Hns as (ns & d7 & Hns & Hd7 & Hd7' & -> & ->).
  seq_inv H p8 s8 c8 Hu4. apply sem_lit_inv in Hu4 as (-> & ->).
  seq_inv H p9 s9 c9 Hvd.
  apply version_date_inv in Hvd as (d8 & Hd8 & Hd8' & -> & ->).
  seq_inv H p10 s10 c10 Hdot. apply sem_lit_inv in Hdot as (-> & ->).
  seq_inv H p11 s11 c11 Hext. apply sem_lit_inv in Hext as (-> & ->).
  destruct H as (Hend & _ & -> & ->).
  exists {| leading_x := x; kind_core := core; content := ct;
            refset_digits := rid; summary_token := sm; language := lg;
            namespace := ns; namespace_digits := d7; date := d8 |}.
  split; [|split; [|split; [exact Hend|]]].
  - unfold well_formed. cbn [kind_core content refset_digits summary_token
      language namespace namespace_digits date]. auto 10.
  - unfold render, language_text. cbn [leading_x kind_core content
      refset_digits summary_token language namespace namespace_digits date].
    destruct lg; repeat rewrite <- app_assoc; reflexivity.
  - cbn [kind_core content summary_token].
    destruct lg, sm; simpl; auto.
Qed.

(** Every parse of the name is a match of the filter pattern. *)
Lemma filter_regex_intro R n s' :
  well_formed n -> s' = [] \/ s' = [nl] ->
  exists pos' c',
    sem (filter_regex R) 0 (render (py "_") R n ++ s') [] pos' s' c'.
Proof.
  destruct n as [x core ct rid sm lg ns d7 d8].
  unfold well_formed, render. cbn [leading_x kind_core content
    refset_digits summary_token language namespace namespace_digits date].
  intros (Hcore & (Hct1 & Hct2) & Hrid & Hsm & Hlg & Hns & (Hd7 & Hd7')
          & (Hd8 & Hd8')) Hend.
  change (match lg with Some l => py "-" ++ l | None => [] end)
    with (language_text lg).
  repeat rewrite <- app_assoc.
  unfold filter_regex, content_sub_type.
  destruct (file_type_intro x core 0 [] Hcore) as (p1 & H1).
  destruct (content_type_intro ct (p1 + 1) ((1, core) :: []) Hct1 Hct2)
    as (p2 & H2).
  destruct (refset_id_intro rid (p2 + 1) ((2, ct) :: (1, core) :: []) Hrid)
    as (p3 & H3).
  destruct (summary_intro sm p3 ((2, ct) :: (1, core) :: []) Hsm)
    as (p4 & H4).
  destruct (language_code_intro lg (p4 + List.length (value R))
              (opt_cap 3 sm ((2, ct) :: (1, core) :: [])) Hlg)
    as (p5 & c5 & H5).
  destruct (country_namespace_intro ns d7 (p5 + 1) c5 Hns Hd7 Hd7') as (p6 & H6).
  destruct (version_date_intro d8 (p6 + 1) ((5, ns) :: c5) Hd8 Hd8')
    as (p7 & H7).
  do 2 eexists.
  eapply sem_seq_intro; [cbn [sem]; repeat split; reflexivity|].
  eapply sem_seq_intro; [apply H1|].
  eapply sem_seq_intro; [apply sem_lit_intro|].
  eapply sem_seq_intro; [apply H2|].
  eapply sem_seq_intro; [apply sem_lit_intro|].
  eapply sem_seq_intro.
  { eapply sem_seq_intro; [apply H3|].
    eapply sem_seq_intro; [apply H4|].
    eapply sem_seq_intro; [apply sem_lit_intro|].
    apply H5. }
  eapply sem_seq_intro; [apply sem_lit_intro|].
  eapply sem_seq_intro; [apply H6|].
  eapply sem_seq_intro; [apply sem_lit_intro|].
  eapply sem_seq_intro; [apply H7|].
  eapply sem_seq_intro; [apply sem_lit_intro|].
  eapply sem_seq_intro; [apply sem_lit_intro|].
  cbn [sem]. auto.
Qed.

(** The text of a name ends with the extension. *)
Lemma render_last sep R n : exists w, render sep R n = w ++ py ".txt".
Proof.
  unfold render. eexists.
  repeat rewrite app_assoc. rewrite <- (app_assoc _ (py ".") (py "txt")).
  reflexivity.
Qed.

End FilterGrammar.

Section Classifier.
Context {U : Unicode}.

(** What an accepted name looks like: a parse of the name, possibly followed
    by one line feed (which [$] lets through), and the groups of the parse. *)
Lemma accepted_name R f m :
  re_match (filter_regex R) f = Some m ->
  exists n s', well_formed n
               /\ f = render (py "_") R n ++ s' /\ (s' = [] \/ s' = [nl])
               /\ skipn (m_len m) f = s'
               /\ group m 1 = Some (kind_core n)
               /\ group m 2 = Some (content n)
               /\ group m 3 = summary_token n.
Proof.
  intros H. apply match_at_sound in H as (pos' & s' & H & Hlen).
  destruct (sem_span _ _ _ _ _ _ _ H) as (w & Ew & Epos).
  apply filter_regex_inv in H as (n & Hwf & Ef & Hend & G1 & G2 & G3).
  exists n, s'.
  split; [exact Hwf|]. split; [exact Ef|]. split; [exact Hend|].
  split; [|unfold group; auto].
  rewrite Hlen, Epos, Ew. simpl. rewrite Nat.sub_0_r.
  rewrite skipn_app, skipn_all, Nat.sub_diag. reflexivity.
Qed.

Lemma grammar_accepted R n s' :
  well_formed n -> s' = [] \/ s' = [nl] ->
  re_match (filter_regex R) (render (py "_") R n ++ s') <> None.
Proof.
  intros Hwf Hend.
  destruct (filter_regex_intro R n s' Hwf Hend) as (pos' & c' & H).
  exact (match_at_complete _ _ _ _ _ _ H).
Qed.

Lemma classify_accepts_iff R f :
  classify R f <> None <-> accepted_form R f.
Proof.
  unfold classify, accepted_form, rf2_grammar. split.
  - destruct (re_match (filter_regex R) f) as [m|] eqn:E; [|congruence].
    intros _.
    apply accepted_name in E as (n & s' & Hwf & -> & [-> | ->] & _).
    + left. exists n. rewrite app_nil_r. auto.
    + right. eauto.
  - intros [(n & Hwf & ->)|(w & -> & n & Hwf & ->)].
    + pose proof (grammar_accepted R n [] Hwf (or_introl eq_refl)) as H.
      rewrite app_nil_r in H.
      destruct (re_match (filter_regex R) (render (py "_") R n));
        congruence.
    + pose proof (grammar_accepted R n [nl] Hwf (or_intror eq_refl)) as H.
      destruct (re_match (filter_regex R) (render (py "_") R n ++ [nl]));
        congruence.
Qed.

End Classifier.

(* ================================================================== *)
(** * [re.sub] with the filter pattern, and the rewrite loop *)
(* ================================================================== *)

Section SubTheory.
Context {U : Unicode}.

Lemma sub_loop_no_match r repl :
  (forall pos s, match_at r (S pos) s = None) ->
  forall s pos skip, sub_loop r repl (S pos) skip s = Ok (skipn skip s).
Proof.
  intros Hnone. induction s as [|x s IH]; intros pos skip.
  - destruct skip; simpl; [rewrite Hnone|]; reflexivity.
  - destruct skip; simpl.
    + rewrite Hnone, IH. reflexivity.
    + apply IH.
Qed.

(** The filter pattern starts with [^]: it matches at position 0 only. *)
Lemma filter_anchored R pos s : match_at (filter_regex R) (S pos) s = None.
Proof. reflexivity. Qed.

(** On an accepted name the first [re.sub] calls the replacement function
    once, on the match that [re.match] found, and keeps what follows the
    match. *)
Lemma re_sub_accepted R repl f m :
  re_match (filter_regex R) f = Some m ->
  re_sub (filter_regex R) repl f
  = rbind (repl m) (fun out => Ok (out ++ skipn (m_len m) f)).
Proof.
  unfold re_match, re_sub. intros H.
  destruct f as [|x f]; cbn [sub_loop]; rewrite H.
  - destruct (repl m); simpl; [|reflexivity].
    rewrite skipn_nil, app_nil_r. reflexivity.
  - destruct (repl m) as [out|e]; cbn [rbind]; [|reflexivity].
    destruct (m_len m) as [|k];
      rewrite (sub_loop_no_match _ _ (filter_anchored R)); reflexivity.
Qed.

Lemma re_sub_rejected R repl f :
  re_match (filter_regex R) f = None ->
  re_sub (filter_regex R) repl f = Ok f.
Proof.
  unfold re_match, re_sub. intros H.
  destruct f as [|x f]; cbn [sub_loop]; rewrite H; [reflexivity|].
  rewrite (sub_loop_no_match _ _ (filter_anchored R)). reflexivity.
Qed.

Lemma chain_raise ts e :
  fold_left (fun acc t => rbind acc (apply_transformation t)) ts (Raise e)
  = Raise e.
Proof. induction ts as [|t ts IH]; simpl; auto. Qed.

Lemma rewrite_chain_cons t ts s :
  rewrite_chain (t :: ts) s
  = rbind (apply_transformation t s) (rewrite_chain ts).
Proof.
  unfold rewrite_chain. simpl.
  destruct (apply_transformation t s); simpl; [reflexivity|apply chain_raise].
Qed.

Lemma ends_with_nl w : ends_with [nl] (w ++ [nl]) = true.
Proof. unfold ends_with. rewrite rev_app_distr. reflexivity. Qed.

(** The base of an accepted name that does not end in a line feed. *)
Lemma base_extraction R f m :
  re_match (filter_regex R) f = Some m ->
  ends_with [nl] f = false ->
  apply_transformation (extract_content_or_summary R) f
  = extract_strategy R m.
Proof.
  intros H Hnl. unfold apply_transformation, extract_content_or_summary.
  cbn [fst snd]. rewrite (re_sub_accepted R _ f m H).
  destruct (accepted_name R f m H) as (n & s' & _ & Ef & Hend & -> & _).
  destruct Hend as [-> | ->].
  - destruct (extract_strategy R m); simpl; [rewrite app_nil_r|]; reflexivity.
  - rewrite Ef, ends_with_nl in Hnl. discriminate.
Qed.

End SubTheory.

(* ================================================================== *)
(** * Table names of particular files *)
(* ================================================================== *)

Section Names.
Context {U : Unicode}.

(** C1 (the code departs from the claim).  The claim: for Snapshot the
    pipeline accepts [sct2_Concept_Snapshot_INT_20240101.txt] and names its
    table [concept_s].  The filter pattern asks for seven digits after the
    country namespace, [INT] included, so this name is rejected: the loop
    body produces no table name for it and a tree that holds only this file
    has an empty load plan. *)
Theorem C1_int_concept_file_rejected :
  table_name_of SNAPSHOT (py "sct2_Concept_Snapshot_INT_20240101.txt") = None
  /\ forall dirname,
       get_table_details
         [(dirname, [py "sct2_Concept_Snapshot_INT_20240101.txt"])] SNAPSHOT
       = Ok [].
Proof.
  assert (H : table_name_of SNAPSHOT
                (py "sct2_Concept_Snapshot_INT_20240101.txt") = None)
    by (vm_compute; reflexivity).
  split; [exact H|].
  intros dirname. unfold get_table_details. cbn [scan_tree scan_files].
  rewrite H. reflexivity.
Qed.

(** C3 (the code departs from the claim).  The claim: an accepted name that
    is a derivative file and has no summary group falls back to the content
    type.  In [extract_strategy] the derivative branch adds ["refset_"] to
    group 3, which is [None] here: for every accepted name with file kind
    [der] and no summary, base extraction raises [TypeError], and so does
    the scan of any directory that lists the file. *)
Theorem C3_absent_summary_raises R f m :
  re_match (filter_regex R) f = Some m ->
  group m 1 = Some (py "der") ->
  group m 3 = None ->
  extract_strategy R m = Raise TypeError
  /\ table_name_of R f = Some (Raise TypeError)
  /\ forall dirname rest, scan_files R dirname (f :: rest) = Raise TypeError.
Proof.
  intros H G1 G3.
  assert (E : extract_strategy R m = Raise TypeError).
  { unfold extract_strategy. rewrite G1, G3. reflexivity. }
  assert (T : table_name_of R f = Some (Raise TypeError)).
  { unfold table_name_of. rewrite H. f_equal.
    unfold normalize, regex_transformations. rewrite rewrite_chain_cons.
    unfold apply_transformation, extract_content_or_summary. cbn [fst snd].
    rewrite (re_sub_accepted R _ f m H), E. reflexivity. }
  split; [exact E|]. split; [exact T|].
  intros dirname rest. cbn [scan_files]. rewrite T. reflexivity.
Qed.

(** C4 (amended).  For Snapshot, a name that the filter accepts with file
    kind [der] and summary [RefsetDescriptor] (and no trailing line feed) has
    base [RefsetDescriptorrefset_s]; rule 2 replaces that text by
    [RefsetDescriptor_s], dropping [refset] and keeping the release short
    code; the table name is [refsetdescriptor_s]. *)
Theorem C4_refsetdescriptor_keeps_short_code f m :
  re_match (filter_regex SNAPSHOT) f = Some m ->
  group m 1 = Some (py "der") ->
  group m 3 = Some (py "RefsetDescriptor") ->
  ends_with [nl] f = false ->
  apply_transformation (extract_content_or_summary SNAPSHOT) f
    = Ok (py "RefsetDescriptorrefset_s")
  /\ apply_transformation (drop_suffix_from_refsetdescriptor SNAPSHOT)
       (py "RefsetDescriptorrefset_s") = Ok (py "RefsetDescriptor_s")
  /\ table_name_of SNAPSHOT f = Some (Ok (py "refsetdescriptor_s")).
Proof.
  intros H G1 G3 Hnl.
  assert (B : apply_transformation (extract_content_or_summary SNAPSHOT) f
              = Ok (py "RefsetDescriptorrefset_s")).
  { rewrite (base_extraction SNAPSHOT f m H Hnl).
    unfold extract_strategy. rewrite G1, G3. vm_compute. reflexivity. }
  split; [exact B|]. split; [vm_compute; reflexivity|].
  unfold table_name_of. rewrite H. f_equal.
  unfold normalize, regex_transformations. rewrite rewrite_chain_cons, B.
  vm_compute. reflexivity.
Qed.

(** C5 (amended).  For Snapshot, a name that the filter accepts with file
    kind [der] and summary [Simple] (and no trailing line feed) has base
    [Simplerefset_s]; rule 3 looks for [SimpleRefset] with a capital R, which
    the base does not contain, so rule 3 leaves it as it is; the table name
    is [simplerefset_s]. *)
Theorem C5_simple_refset_name f m :
  re_match (filter_regex SNAPSHOT) f = Some m ->
  group m 1 = Some (py "der") ->
  group m 3 = Some (py "Simple") ->
  ends_with [nl] f = false ->
  apply_transformation (extract_content_or_summary SNAPSHOT) f
    = Ok (py "Simplerefset_s")
  /\ apply_transformation drop_suffix_from_simplerefset (py "Simplerefset_s")
     = Ok (py "Simplerefset_s")
  /\ table_name_of SNAPSHOT f = Some (Ok (py "simplerefset_s")).
Proof.
  intros H G1 G3 Hnl.
  assert (B : apply_transformation (extract_content_or_summary SNAPSHOT) f
              = Ok (py "Simplerefset_s")).
  { rewrite (base_extraction SNAPSHOT f m H Hnl).
    unfold extract_strategy. rewrite G1, G3. vm_compute. reflexivity. }
  split; [exact B|]. split; [vm_compute; reflexivity|].
  unfold table_name_of. rewrite H. f_equal.
  unfold normalize, regex_transformations. rewrite rewrite_chain_cons, B.
  vm_compute. reflexivity.
Qed.

End Names.

(* ================================================================== *)
(** * The classifier and the grammar *)
(* ================================================================== *)

Section ClassifierClaims.
Context {U : Unicode}.

(** C2 (amended).  For every release type and every file name that does not
    end in a line feed, the filter accepts the name exactly when it is in the
    grammar of section 4.1 read with an underscore between countryNamespace
    and versionDate; a name outside the grammar is rejected ([None], no
    exception); and the three groups of an accepted name are the file-kind
    core, the content type and the summary of a parse of the name (the
    summary group is absent when the parse has none). *)
Theorem C2_classifier_accepts_grammar R f :
  ends_with [nl] f = false ->
  (classify R f <> None <-> rf2_grammar R f)
  /\ (~ rf2_grammar R f -> classify R f = None)
  /\ (forall g1 g2 g3,
        classify R f = Some (g1, g2, g3) ->
        exists n, well_formed n
                  /\ f = render (py "_") R n
                  /\ g1 = Some (kind_core n)
                  /\ g2 = Some (content n)
                  /\ g3 = summary_token n).
Proof.
  intros Hnl.
  assert (IFF : classify R f <> None <-> rf2_grammar R f).
  { rewrite classify_accepts_iff. unfold accepted_form. split; [|auto].
    intros [H|(w & E & _)]; [exact H|].
    rewrite E, ends_with_nl in Hnl. discriminate. }
  split; [exact IFF|]. split.
  - intros Hn. destruct (classify R f) eqn:E; [|reflexivity].
    exfalso. apply Hn, IFF. congruence.
  - unfold classify. intros g1 g2 g3 H.
    destruct (re_match (filter_regex R) f) as [m|] eqn:E; [|discriminate].
    inversion H; subst g1 g2 g3.
    apply accepted_name in E as (n & s' & Hwf & Ef & Hend & _ & G1 & G2 & G3).
    exists n. split; [exact Hwf|]. split; [|auto].
    destruct Hend as [-> | ->]; [rewrite app_nil_r in Ef; exact Ef|].
    rewrite Ef, ends_with_nl in Hnl. discriminate.
Qed.

(** No name of the grammar ends in a line feed, whatever the separator. *)
Lemma render_not_nl sep R n w : render sep R n <> w ++ [nl].
Proof.
  destruct (render_last sep R n) as (v & ->). intros E.
  apply (f_equal (@rev char)) in E. rewrite !rev_app_distr in E.
  discriminate E.
Qed.

Lemma tail_of_app (a b c : str) :
  a ++ b = c -> b = skipn (List.length c - List.length b) c.
Proof.
  intros <-. rewrite length_app.
  replace (List.length a + List.length b - List.length b)
    with (List.length a) by lia.
  rewrite skipn_app, skipn_all, Nat.sub_diag. reflexivity.
Qed.

(** In the grammar as section 4.1 writes it, the fifteen characters before
    the extension are digits. *)
Lemma spec_grammar_tail R f :
  spec_grammar R f ->
  19 <= List.length f
  /\ forallb (in_class CDigit)
       (firstn 15 (skipn (List.length f - 19) f)) = true.
Proof.
  intros (n & Hwf & ->).
  destruct Hwf as (_ & _ & _ & _ & _ & _ & (L7 & D7) & (L8 & D8)).
  assert (E : exists pre,
             render [] R n
             = pre ++ (namespace_digits n ++ date n) ++ py ".txt").
  { exists ((if leading_x n then py "x" else []) ++ kind_core n ++ py "2"
             ++ py "_" ++ content n ++ py "_" ++ refset_digits n
             ++ opt_str (summary_token n) ++ value R
             ++ match language n with Some l => py "-" ++ l | None => [] end
             ++ py "_" ++ namespace n).
    unfold render. repeat rewrite <- app_assoc. reflexivity. }
  destruct E as (pre & E).
  assert (L : List.length ((namespace_digits n ++ date n) ++ py ".txt") = 19).
  { rewrite !length_app, L7, L8. reflexivity. }
  split.
  - rewrite E, length_app, L. lia.
  - symmetry in E. apply tail_of_app in E. rewrite L in E. rewrite <- E.
    replace 15 with (List.length (namespace_digits n ++ date n) + 0)
      by (rewrite length_app, L7, L8; reflexivity).
    rewrite firstn_app_2. cbn [firstn]. rewrite app_nil_r, forallb_app.
    unfold all_of in D7, D8. rewrite D7, D8. reflexivity.
Qed.

End ClassifierClaims.

(* ================================================================== *)
(** * The rewrite loop on a name that is already lower case *)
(* ================================================================== *)

Section Idempotence.
Context {U : Unicode}.

Lemma class_upper_in p x :
  class_upper p = true -> in_class p x = true -> is_ascii_upper x = true.
Proof.
  induction p as [| |lo hi|y|a IHa b IHb]; simpl; try discriminate.
  - unfold is_ascii_upper, in_range.
    rewrite !andb_true_iff, !N.leb_le. intros [H1 H2] [H3 H4]. split; lia.
  - intros H E. apply char_eqb_eq in E as ->. exact H.
  - rewrite andb_true_iff, orb_true_iff. intros [Ha Hb] [H|H]; auto.
Qed.

Lemma needs_upper_sem r :
  needs_upper r = true ->
  forall pos s c pos' s' c',
    sem r pos s c pos' s' c' ->
    exists w, s = w ++ s' /\ existsb is_ascii_upper w = true.
Proof.
  induction r as [w|r1 IH1 r2 IH2|r1 IH1 r2 IH2|r1 IH1|p lo hi|i r1 IH1| |];
    simpl; intros Hn pos s c pos' s' c' H; try discriminate.
  - destruct H as (-> & _ & _). eauto.
  - destruct H as (p1 & s1 & c1 & H1 & H2).
    destruct (sem_span _ _ _ _ _ _ _ H1) as (w1 & -> & _).
    destruct (sem_span _ _ _ _ _ _ _ H2) as (w2 & -> & _).
    exists (w1 ++ w2). rewrite <- app_assoc. split; [reflexivity|].
    rewrite existsb_app. apply orb_true_iff.
    apply orb_true_iff in Hn as [Hn|Hn].
    + left. destruct (IH1 Hn _ _ _ _ _ _ H1) as (w & E & Hw).
      apply app_inv_tail in E as <-. exact Hw.
    + right. destruct (IH2 Hn _ _ _ _ _ _ H2) as (w & E & Hw).
      apply app_inv_tail in E as <-. exact Hw.
  - apply andb_true_iff in Hn as [Hn1 Hn2]. destruct H as [H|H]; eauto.
  - apply andb_true_iff in Hn as [Hlo Hp].
    destruct H as (w & -> & Hw & Hle & _).
    exists w. split; [reflexivity|].
    destruct w as [|x w]; [destruct lo; [discriminate|simpl in Hle; lia]|].
    simpl in *. apply andb_true_iff in Hw as [Hx _].
    rewrite (class_upper_in p x Hp Hx). reflexivity.
  - destruct H as (c1 & H & _). eauto.
Qed.

Lemma no_upper_prefix w s' :
  no_upper (w ++ s') -> existsb is_ascii_upper w = false.
Proof.
  unfold no_upper. rewrite forallb_app, andb_true_iff. intros [H _].
  induction w as [|x w IH]; simpl in *; [reflexivity|].
  apply andb_true_iff in H as [Hx Hw].
  apply negb_true_iff in Hx. rewrite Hx. auto.
Qed.

Lemma no_match_without_upper r pos s :
  needs_upper r = true -> no_upper s -> match_at r pos s = None.
Proof.
  intros Hn Hs. destruct (match_at r pos s) as [m|] eqn:E; [|reflexivity].
  apply match_at_sound in E as (pos' & s' & H & _).
  destruct (needs_upper_sem r Hn _ _ _ _ _ _ H) as (w & -> & Hw).
  rewrite (no_upper_prefix _ _ Hs) in Hw. discriminate.
Qed.

Lemma sub_loop_without_upper r repl :
  needs_upper r = true ->
  forall s pos skip, no_upper s ->
    sub_loop r repl pos skip s = Ok (skipn skip s).
Proof.
  intros Hn. induction s as [|x s IH]; intros pos skip Hs.
  - destruct skip; cbn [sub_loop];
      [rewrite (no_match_without_upper r pos [] Hn Hs)|]; reflexivity.
  - assert (Hs' : no_upper s).
    { unfold no_upper in *. simpl in Hs. apply andb_true_iff in Hs. tauto. }
    destruct skip; cbn [sub_loop].
    + rewrite (no_match_without_upper r pos (x :: s) Hn Hs), IH by exact Hs'.
      reflexivity.
    + apply IH, Hs'.
Qed.

Lemma transformations_need_upper R :
  forallb (fun t => needs_upper (fst t)) (regex_transformations R) = true.
Proof. destruct R; vm_compute; reflexivity. Qed.

(** No pattern of the rewrite list matches the empty string: the empty-match
    case of [sub_loop] is never taken by the script. *)
Lemma patterns_never_match_empty R t pos s m :
  In t (regex_transformations R) ->
  match_at (fst t) pos s = Some m -> m_len m <> 0.
Proof.
  intros Ht H.
  pose proof (transformations_need_upper R) as Hn.
  rewrite forallb_forall in Hn. specialize (Hn t Ht).
  apply match_at_sound in H as (pos' & s' & H & ->).
  destruct (needs_upper_sem _ Hn _ _ _ _ _ _ H) as (w & E & Hw).
  destruct (sem_span _ _ _ _ _ _ _ H) as (w' & E' & ->).
  rewrite E in E'. apply app_inv_tail in E' as <-.
  destruct w; [discriminate Hw|simpl; lia].
Qed.

Lemma rewrite_chain_without_upper ts s :
  forallb (fun t => needs_upper (fst t)) ts = true ->
  no_upper s -> rewrite_chain ts s = Ok s.
Proof.
  induction ts as [|t ts IH]; intros Hts Hs; [reflexivity|].
  simpl in Hts. apply andb_true_iff in Hts as [Ht Hts].
  rewrite rewrite_chain_cons. unfold apply_transformation, re_sub.
  rewrite (sub_loop_without_upper _ _ Ht s 0 0 Hs). simpl. auto.
Qed.

Lemma lower_no_upper s : lower_expansion_ok -> no_upper (lower s).
Proof.
  intros HU. unfold no_upper, lower.
  apply forallb_forall. intros c Hc.
  apply in_concat in Hc as (l & Hl & Hc).
  apply in_map_iff in Hl as (i & <- & _).
  unfold lower_at in Hc. destruct (nth_error s i) as [x|] eqn:E; [|destruct Hc].
  destruct (is_ascii x) eqn:Ea.
  - destruct Hc as [<- |[]].
    destruct (is_ascii_upper x) eqn:Eu; [|rewrite Eu; reflexivity].
    unfold is_ascii_upper, in_range in *.
    apply andb_true_iff in Eu as [H1 H2]. apply N.leb_le in H1, H2.
    apply negb_true_iff, andb_false_iff. right. apply N.leb_gt. lia.
  - rewrite (HU s i x E Ea c Hc). reflexivity.
Qed.

(** C9.  The rewrite loop followed by [.lower()] gives back every name it
    produces: if it maps a file name to [n], it maps [n] to [n].  Python's
    lower-casing is assumed to leave no upper-case ASCII letter and to be
    idempotent. *)
Theorem C9_pipeline_idempotent_on_output R f n :
  lower_expansion_ok ->
  (forall s, lower (lower s) = lower s) ->
  normalize R f = Ok n ->
  normalize R n = Ok n.
Proof.
  intros HU Hidem H. unfold normalize in H.
  destruct (rewrite_chain (regex_transformations R) f) as [t|e];
    [|discriminate].
  simpl in H. inversion H; subst n. unfold normalize.
  rewrite (rewrite_chain_without_upper _ _ (transformations_need_upper R)
             (lower_no_upper t HU)).
  simpl. rewrite Hidem. reflexivity.
Qed.

End Idempotence.

(* ================================================================== *)
(** * The order of the load plan *)
(* ================================================================== *)

Section Ordering.

Lemma str_ltb_asym a : forall b, str_ltb a b = true -> str_ltb b a = false.
Proof.
  induction a as [|x a IH]; intros [|y b]; simpl; try discriminate; auto.
  unfold char_eqb. intros H.
  apply orb_true_iff in H as [H|H].
  - apply N.ltb_lt in H. apply orb_false_iff. split.
    + apply N.ltb_ge. lia.
    + apply andb_false_iff. left. apply N.eqb_neq. lia.
  - apply andb_true_iff in H as [E H]. apply N.eqb_eq in E as ->.
    rewrite N.ltb_irrefl, N.eqb_refl. simpl. auto.
Qed.

(** If [a < c] then any [b] is above [a] or below [c]. *)
Lemma str_ltb_between a : forall b c,
  str_ltb a c = true -> str_ltb a b = true \/ str_ltb b c = true.
Proof.
  induction a as [|x a IH]; intros [|y b] [|z c]; simpl; try discriminate;
    auto.
  unfold char_eqb. intros H.
  rewrite !orb_true_iff, !andb_true_iff, !N.ltb_lt, !N.eqb_eq in *.
  destruct H as [H|[-> H]].
  - destruct (N.lt_ge_cases x y); [auto|]. right. left. lia.
  - destruct (N.lt_trichotomy z y) as [L|[-> |L]]; auto.
    destruct (IH b c H); auto.
Qed.

Lemma key_ltb_asym k1 k2 : key_ltb k1 k2 = true -> key_ltb k2 k1 = false.
Proof.
  destruct k1 as [[a1 b1] c1], k2 as [[a2 b2] c2]. unfold key_ltb.
  destruct a1, a2, b1, b2; simpl; try discriminate; auto;
    apply str_ltb_asym.
Qed.

Lemma key_ltb_between k1 k2 k3 :
  key_ltb k1 k3 = true -> key_ltb k1 k2 = true \/ key_ltb k2 k3 = true.
Proof.
  destruct k1 as [[a1 b1] c1], k2 as [[a2 b2] c2], k3 as [[a3 b3] c3].
  unfold key_ltb.
  destruct a1, a2, a3, b1, b2, b3; simpl; try discriminate; auto;
    apply str_ltb_between.
Qed.

Lemma insert_entry_perm x l : Permutation (insert_entry x l) (x :: l).
Proof.
  induction l as [|y l IH]; cbn [insert_entry]; [reflexivity|].
  destruct (key_ltb (sort_key y) (sort_key x)); [|reflexivity].
  rewrite IH. apply perm_swap.
Qed.

Lemma sort_entries_perm l : Permutation (sort_entries l) l.
Proof.
  induction l as [|x l IH]; simpl; [reflexivity|].
  rewrite insert_entry_perm. auto.
Qed.

Lemma insert_entry_sorted x l :
  StronglySorted key_le l -> StronglySorted key_le (insert_entry x l).
Proof.
  induction 1 as [|y l Hs IH Hy]; cbn [insert_entry].
  - constructor; constructor.
  - destruct (key_ltb (sort_key y) (sort_key x)) eqn:E.
    + constructor; [exact IH|].
      apply (Permutation_Forall (Permutation_sym (insert_entry_perm x l))).
      constructor; [|exact Hy]. apply key_ltb_asym, E.
    + constructor; [constructor; assumption|].
      constructor; [exact E|].
      apply Forall_forall. intros z Hz.
      rewrite Forall_forall in Hy. specialize (Hy z Hz). unfold key_le in *.
      destruct (key_ltb (sort_key z) (sort_key x)) eqn:Ez; [|reflexivity].
      destruct (key_ltb_between _ (sort_key y) _ Ez); congruence.
Qed.

Lemma sort_entries_sorted l : StronglySorted key_le (sort_entries l).
Proof.
  induction l as [|x l IH]; simpl; [constructor|].
  apply insert_entry_sorted, IH.
Qed.

Lemma sorted_nth (l : list entry) :
  StronglySorted key_le l ->
  forall i j a b,
    nth_error l i = Some a -> nth_error l j = Some b -> i < j -> key_le a b.
Proof.
  induction 1 as [|x l Hs IH Hx]; intros i j a b Ha Hb Hij.
  - destruct i; discriminate.
  - destruct j as [|j]; [lia|]. simpl in Hb. destruct i as [|i].
    + simpl in Ha. inversion Ha; subst a.
      rewrite Forall_forall in Hx. apply Hx. eapply nth_error_In, Hb.
    + simpl in Ha. apply (IH i j); auto. lia.
Qed.

(** C6.  The plan returned is the given entries arranged in ascending order
    of the key (directory lacks the marker [sct2], table name lacks
    [concept], table name); hence an entry of a marked directory whose table
    name contains [concept] stands at a smaller index than any entry of a
    directory without the marker, and than any entry whose table name does
    not contain [concept]. *)
Theorem C6_plan_sorted_concept_first (plan : list entry) :
  Permutation (sort_entries plan) plan
  /\ StronglySorted key_le (sort_entries plan)
  /\ forall i j c r,
       nth_error (sort_entries plan) i = Some c ->
       nth_error (sort_entries plan) j = Some r ->
       contains (py "sct2") (dir_of c) = true ->
       contains (py "concept") (table_of c) = true ->
       contains (py "sct2") (dir_of r) = false
       \/ contains (py "concept") (table_of r) = false ->
       i < j.
Proof.
  split; [apply sort_entries_perm|]. split; [apply sort_entries_sorted|].
  intros i j c r Hc Hr A B Hother.
  destruct (Nat.lt_trichotomy i j) as [L|[E|L]]; [exact L| |].
  - subst j. rewrite Hc in Hr. inversion Hr; subst r.
    destruct Hother; congruence.
  - pose proof (sorted_nth _ (sort_entries_sorted plan) j i r c Hr Hc L) as H.
    unfold key_le, sort_key, key_ltb in H. rewrite A, B in H.
    destruct Hother as [E|E]; rewrite E in H.
    + discriminate H.
    + destruct (contains (py "sct2") (dir_of r)); discriminate H.
Qed.

End Ordering.

(* ================================================================== *)
(** * The driver: what a run can do to the outside *)
(* ================================================================== *)

Section DriverTheory.
Context {U : Unicode} {Wd : World}.

Ltac events :=
  repeat (apply Forall_cons || apply Forall_nil || apply Forall_app
          || split);
  try (intros ? ? ? ?; discriminate);
  try (intros ? ?; discriminate);
  try (intros ?; discriminate).

Lemma quiet_app t1 t2 : quiet t1 -> quiet t2 -> quiet (t1 ++ t2).
Proof.
  intros (H1 & H2 & H3) (H4 & H5 & H6).
  repeat split; apply Forall_app; auto.
Qed.

Lemma calm_app t1 t2 : calm t1 -> calm t2 -> calm (t1 ++ t2).
Proof.
  intros (H1 & H2) (H3 & H4). split; apply Forall_app; auto.
Qed.

Lemma quiet_calm t : quiet t -> calm t.
Proof. intros (H1 & _ & H3). split; assumption. Qed.

Lemma filenames_differ R R' : ddl_filename R <> validation_filename R'.
Proof. destruct R, R'; vm_compute; discriminate. Qed.

Lemma validation_filename_inj R R' :
  validation_filename R = validation_filename R' -> R = R'.
Proof. destruct R, R'; vm_compute; intros H; try reflexivity; discriminate H. Qed.

Lemma execute_sql_file_eq dirname sql_filename w :
  execute_sql_file dirname sql_filename w
  = (Ok (sql_result (snd (run_sql_file w (path_join dirname sql_filename)))),
     fst (run_sql_file w (path_join dirname sql_filename)),
     RunSqlFile dirname sql_filename
       (snd (run_sql_file w (path_join dirname sql_filename)))
     :: sql_logs dirname sql_filename
          (snd (run_sql_file w (path_join dirname sql_filename)))).
Proof.
  unfold execute_sql_file.
  destruct (run_sql_file w (path_join dirname sql_filename)) as [w1 o].
  destruct o; reflexivity.
Qed.

Lemma sql_logs_quiet dirname fn o : quiet (sql_logs dirname fn o).
Proof. destruct o; simpl; events. Qed.

(** [validate_targetcomponentid], by the outcome of the script. *)
Lemma validate_eq R w :
  validate_targetcomponentid R w
  = let p := path_join SQL_RESOURCES_PATH (validation_filename R) in
    match snd (run_sql_file w p) with
    | Rows (r :: rs) =>
        (Raise SystemExit, fst (run_sql_file w p), fatal_tail R (r :: rs))
    | o =>
        (Ok tt, fst (run_sql_file w p),
         RunSqlFile SQL_RESOURCES_PATH (validation_filename R) o
         :: sql_logs SQL_RESOURCES_PATH (validation_filename R) o)
    end.
Proof.
  unfold validate_targetcomponentid, bind. rewrite execute_sql_file_eq.
  destruct (run_sql_file w
              (path_join SQL_RESOURCES_PATH (validation_filename R)))
    as [w1 o].
  destruct o as [[|r rs]|e|e]; reflexivity.
Qed.

Lemma execute_ddl_quiet R w :
  res_of (execute_ddl R w) = Ok tt /\ quiet (evs_of (execute_ddl R w)).
Proof.
  unfold execute_ddl, bind. rewrite execute_sql_file_eq. simpl.
  split; [reflexivity|]. rewrite app_nil_r.
  apply (quiet_app [_]); [|apply sql_logs_quiet].
  events.
Qed.

Lemma conn_execute_eq s w :
  conn_execute s w
  = (Ok (snd (execute w s)), fst (execute w s), [Execute s (snd (execute w s))]).
Proof. unfold conn_execute. destruct (execute w s); reflexivity. Qed.

Lemma import_text_file_quiet tn dn fn w :
  res_of (import_text_file tn dn fn w) = Ok tt
  /\ quiet (evs_of (import_text_file tn dn fn w)).
Proof.
  unfold import_text_file, bind. rewrite conn_execute_eq.
  destruct (snd (execute w (COPY tn (path_join dn fn)))); simpl;
    (split; [reflexivity|events]).
Qed.

Lemma import_all_quiet td :
  forall w, res_of (import_all td w) = Ok tt
            /\ quiet (evs_of (import_all td w)).
Proof.
  induction td as [|[[tn dn] fn] td IH]; intros w.
  - simpl. split; [reflexivity|events].
  - cbn [import_all]. unfold bind.
    destruct (import_text_file_quiet tn dn fn w) as [Hr Hq].
    destruct (import_text_file tn dn fn w) as [[r w1] t1].
    unfold res_of, evs_of in *. simpl in Hr, Hq. subst r.
    destruct (IH w1) as [Hr' Hq'].
    destruct (import_all td w1) as [[r2 w2] t2].
    unfold res_of, evs_of in *. simpl in *.
    split; [exact Hr'|apply quiet_app; assumption].
Qed.

Lemma loop_outcome_after {A B} (m : M A) (f : A -> M B) w :
  (exists a, res_of (m w) = Ok a) ->
  quiet (evs_of (m w)) ->
  (forall a w1, loop_outcome (f a w1)) ->
  loop_outcome (bind m f w).
Proof.
  intros [a Ha] Hq Hf. unfold bind.
  destruct (m w) as [[r w1] t1]. unfold res_of, evs_of in *. simpl in *.
  subst r. specialize (Hf a w1).
  destruct (f a w1) as [[r2 w2] t2].
  destruct Hf as [Hq2|(Hr & pre & R & r & rs & Hpre & Ht)];
    unfold res_of, evs_of in *; simpl in *.
  - left. apply quiet_app; assumption.
  - right. split; [exact Hr|].
    exists (t1 ++ pre), R, r, rs. split; [apply quiet_app; assumption|].
    rewrite Ht, app_assoc. reflexivity.
Qed.

Lemma loop_outcome_prefix {B} (t0 : list event)
    (x : result B * state * list event) :
  quiet t0 -> loop_outcome x ->
  loop_outcome (let '(r, w2, t2) := x in (r, w2, t0 ++ t2)).
Proof.
  intros Hq Hx. destruct x as [[r w2] t2].
  destruct Hx as [Hq2|(Hr & pre & R & r' & rs & Hpre & Ht)];
    unfold res_of, evs_of in *; simpl in *.
  - left. apply (quiet_app t0); assumption.
  - right. split; [exact Hr|].
    exists (t0 ++ pre), R, r', rs. split; [apply quiet_app; assumption|].
    rewrite Ht, app_assoc. reflexivity.
Qed.

Lemma validate_then {B} R (f : unit -> M B) w :
  (forall a w1, loop_outcome (f a w1)) ->
  loop_outcome (bind (validate_targetcomponentid R) f w).
Proof.
  intros Hf. unfold bind. rewrite validate_eq. cbv zeta.
  set (p := path_join SQL_RESOURCES_PATH (validation_filename R)).
  destruct (run_sql_file w p) as [w1 o]. cbn [fst snd].
  assert (OTHER : forall o',
             (forall r rs, o' <> Rows (r :: rs)) ->
             loop_outcome
               (let '(r, w2, t2) := f tt w1 in
                (r, w2,
                 (RunSqlFile SQL_RESOURCES_PATH (validation_filename R) o'
                  :: sql_logs SQL_RESOURCES_PATH (validation_filename R) o')
                 ++ t2))).
  { intros o' Ho'. specialize (Hf tt w1).
    destruct (f tt w1) as [[r2 w2] t2].
    assert (Hq : quiet (RunSqlFile SQL_RESOURCES_PATH (validation_filename R) o'
                        :: sql_logs SQL_RESOURCES_PATH (validation_filename R) o')).
    { apply (quiet_app [_]); [|apply sql_logs_quiet]. events.
      intros R' r rs H. inversion H as [[H1 H2]]. exact (Ho' _ _ H2). }
    destruct Hf as [Hq2|(Hr & pre & R' & r & rs & Hpre & Ht)];
      unfold res_of, evs_of in *; simpl in *.
    - left. apply (quiet_app (_ :: _)); assumption.
    - right. split; [exact Hr|].
      exists ((RunSqlFile SQL_RESOURCES_PATH (validation_filename R) o'
               :: sql_logs SQL_RESOURCES_PATH (validation_filename R) o')
              ++ pre), R', r, rs.
      split; [apply (quiet_app (_ :: _)); assumption|].
      rewrite Ht. rewrite <- app_assoc. reflexivity. }
  destruct o as [[|r rs]|e|e].
  - apply OTHER. discriminate.
  - right. split; [reflexivity|].
    exists [], R, r, rs. split; [repeat split; constructor|reflexivity].
  - apply OTHER. discriminate.
  - apply OTHER. discriminate.
Qed.

Lemma release_loop_outcome package_location Rs :
  forall file_imported w,
    loop_outcome (release_loop package_location Rs file_imported w).
Proof.
  induction Rs as [|R Rs IH]; intros b w.
  - left. simpl. events.
  - cbn [release_loop]. unfold bind at 1, get_table_details_in.
    set (top := path_join package_location (value R)).
    destruct (get_table_details (walk w top) R) as [[|e es]|ex].
    + apply loop_outcome_prefix; [events|].
      apply (loop_outcome_after (logging WARNING _)).
      * exists tt. reflexivity.
      * simpl. events.
      * intros _ w2. apply IH.
    + apply loop_outcome_prefix; [events|].
      apply loop_outcome_after.
      * exists tt. apply execute_ddl_quiet.
      * apply execute_ddl_quiet.
      * intros _ w2. apply loop_outcome_after.
        -- exists tt. apply import_all_quiet.
        -- apply import_all_quiet.
        -- intros _ w3. apply validate_then. intros _ w4. apply IH.
    + left. simpl. events.
Qed.

Lemma run_outcome_after {A B} tail (m : M A) (f : A -> M B) w :
  quiet (evs_of (m w)) ->
  (forall a w1, run_outcome tail (f a w1)) ->
  run_outcome tail (bind m f w).
Proof.
  intros Hq Hf. unfold bind.
  destruct (m w) as [[[a|e] w1] t1]; unfold evs_of in Hq; simpl in Hq.
  - specialize (Hf a w1). destruct (f a w1) as [[r2 w2] t2].
    destruct Hf as [Hn|(Hr & pre & R & r & rs & Hpre & Ht)];
      unfold res_of, evs_of in *; simpl in *.
    + left. apply calm_app; [apply quiet_calm, Hq|exact Hn].
    + right. split; [exact Hr|].
      exists (t1 ++ pre), R, r, rs. split; [apply quiet_app; assumption|].
      rewrite Ht, app_assoc. reflexivity.
  - left. apply quiet_calm, Hq.
Qed.

Lemma after_loop_calm (file_imported : bool) w :
  calm
    (evs_of ((if file_imported
              then bind start_ui (fun _ =>
                   bind (logging INFO INFO_UI_RUNNING) (fun _ => input))
              else ret tt) w)).
Proof.
  destruct file_imported; [|simpl; events].
  unfold start_ui, bind. rewrite conn_execute_eq.
  destruct (snd (execute w UI_START_COMMAND)); simpl; unfold input;
    match goal with
    | |- context [console_input ?x] => destruct (console_input x) as [w' o]
    end; simpl; events.
Qed.

Lemma load_and_serve_outcome package_location w :
  run_outcome [] (load_and_serve package_location w).
Proof.
  unfold load_and_serve, try_finally, close. unfold bind at 1.
  pose proof (release_loop_outcome package_location [FULL; SNAPSHOT] false w)
    as H.
  destruct (release_loop package_location [FULL; SNAPSHOT] false w)
    as [[r w1] t1].
  destruct H as [Hq|(Hr & pre & R & r' & rs & Hpre & Ht)];
    unfold res_of, evs_of in *; simpl in *.
  - left. apply quiet_calm in Hq. destruct r as [b|e].
    + pose proof (after_loop_calm b w1) as H2.
      destruct ((if b
                 then bind start_ui (fun _ =>
                      bind (logging INFO INFO_UI_RUNNING) (fun _ => input))
                 else ret tt) w1) as [[r2 w2] t2].
      unfold evs_of in H2. simpl in *.
      apply calm_app; [apply calm_app; assumption|events].
    + simpl. apply calm_app; [assumption|events].
  - right. subst r. simpl. split; [reflexivity|].
    exists pre, R, r', rs. split; [exact Hpre|].
    rewrite Ht, <- app_assoc. reflexivity.
Qed.

Lemma DuckDBClient_quiet db_path w : quiet (evs_of (DuckDBClient db_path w)).
Proof.
  unfold DuckDBClient, bind, duckdb_connect.
  destruct (connect w db_path) as [w1 [e|]]; [simpl; events|].
  rewrite conn_execute_eq.
  destruct (snd (execute w1 UI_INSTALL_COMMAND)); simpl;
    try rewrite conn_execute_eq;
    try match goal with
        | |- context [snd (execute ?x UI_LOAD_COMMAND)] =>
            destruct (snd (execute x UI_LOAD_COMMAND))
        end; simpl; events.
Qed.

Lemma unpack_quiet package_location temp_dir w :
  quiet (evs_of (unpack package_location temp_dir w)).
Proof.
  unfold unpack.
  destruct (ends_with (py ".zip") package_location); [|simpl; events].
  destruct (isfile w package_location); simpl; [|events].
  unfold bind, logging, emit.
  destruct (extractall w package_location temp_dir) as [w2 [e|]]; simpl;
    events.
Qed.

Lemma load_package_outcome package_location DB_FILE w :
  calm (evs_of (load_package package_location DB_FILE w))
  \/ (res_of (load_package package_location DB_FILE w) = Raise SystemExit
      /\ exists pre R r rs d,
           quiet pre
           /\ evs_of (load_package package_location DB_FILE w)
              = pre ++ fatal_tail R (r :: rs) ++ closing [RmTemp d]).
Proof.
  unfold load_package, with_temp_dir. destruct (mkdtemp w) as [w1 d].
  pose proof (run_outcome_after []
                (unpack package_location d)
                (fun location =>
                   bind (DuckDBClient DB_FILE)
                        (fun _ => load_and_serve location)) w1
                (unpack_quiet package_location d w1)) as H.
  match type of H with
  | ?P -> _ => assert (HP : P)
  end.
  { intros location w2. apply run_outcome_after.
    - apply DuckDBClient_quiet.
    - intros _ w3. apply load_and_serve_outcome. }
  specialize (H HP). clear HP.
  destruct (bind (unpack package_location d)
              (fun location =>
                 bind (DuckDBClient DB_FILE)
                      (fun _ => load_and_serve location)) w1)
    as [[r w2] t].
  destruct H as [Hn|(Hr & pre & R & r' & rs & Hpre & Ht)];
    unfold res_of, evs_of in *; simpl in *.
  - left. apply (calm_app [_]); [events|].
    apply calm_app; [exact Hn|events].
  - right. split; [exact Hr|].
    exists (MkTemp d :: pre), R, r', rs, d. split.
    + apply (quiet_app [_]); [events|exact Hpre].
    + rewrite Ht. simpl. repeat rewrite <- app_assoc. reflexivity.
Qed.

(** [main], by the outcome of [validate_package_path]. *)
Lemma main_eq package_location DB_FILE w :
  main package_location DB_FILE w
  = if negb (negb (str_eqb package_location [])
             || isdir w package_location || isfile w package_location)
    then (Raise SystemExit, w, [Log ERROR ERROR_INVALID_PACKAGE; PrintHelp])
    else load_package package_location DB_FILE w.
Proof.
  unfold main, validate_package_path, load_package.
  destruct (negb (negb (str_eqb package_location [])
                  || isdir w package_location || isfile w package_location)).
  - reflexivity.
  - destruct (with_temp_dir _ w) as [[r w2] t]. reflexivity.
Qed.

Lemma DuckDBClient_first db_path w :
  exists t, evs_of (DuckDBClient db_path w) = Connect db_path :: t.
Proof.
  unfold DuckDBClient, duckdb_connect. unfold bind at 1.
  destruct (connect w db_path) as [w1 [e|]].
  - eexists. reflexivity.
  - match goal with
    | |- context [bind ?m ?f w1] => destruct (bind m f w1) as [[r w2] t]
    end. eexists. reflexivity.
Qed.

(** C7.  If the validation script of a release type ran and returned one or
    more rows, the run ends with [SystemExit]; what follows the script in
    the trace is its success message, the error with the number of rows,
    the closing of the connection and the removal of the temporary
    directory, and nothing else: no further release type, no UI start. *)
Theorem C7_fatal_validation_ends_run package_location DB_FILE w R r rs :
  In (validation_ran R (r :: rs)) (evs_of (main package_location DB_FILE w)) ->
  res_of (main package_location DB_FILE w) = Raise SystemExit
  /\ (forall o, ~ In (Execute UI_START_COMMAND o)
                     (evs_of (main package_location DB_FILE w)))
  /\ exists pre d,
       evs_of (main package_location DB_FILE w)
       = pre ++ [validation_ran R (r :: rs);
                 Log INFO (INFO_SQL_EXEC_SUCCESS (validation_filename R));
                 Log ERROR (FOUND_INVALID_TARGETCOMPONENTIDS
                              (S (List.length rs)) R);
                 Close; Log DEBUG DEBUG_CONNECTION_CLOSED; RmTemp d].
Proof.
  rewrite main_eq.
  destruct (negb (negb (str_eqb package_location [])
                  || isdir w package_location || isfile w package_location)).
  - simpl. intros [H|[H|[]]]; discriminate H.
  - intros Hin.
    destruct (load_package_outcome package_location DB_FILE w)
      as [[Hn _]|(Hr & pre & R' & r' & rs' & d & (Hq1 & Hq2 & _) & Ht)].
    + rewrite Forall_forall in Hn. exfalso. exact (Hn _ Hin R r rs eq_refl).
    + rewrite Ht in *. clear Ht.
      assert (E : R' = R /\ r' :: rs' = r :: rs).
      { apply in_app_or in Hin as [Hin|Hin].
        - rewrite Forall_forall in Hq1. exfalso.
          exact (Hq1 _ Hin R r rs eq_refl).
        - simpl in Hin.
          destruct Hin as [H|[H|[H|[H|[H|[H|[]]]]]]]; try discriminate H.
          pose proof (f_equal (fun ev => match ev with
                                         | RunSqlFile _ fn _ => fn
                                         | _ => []
                                         end) H) as H1.
          pose proof (f_equal (fun ev => match ev with
                                         | RunSqlFile _ _ (Rows x) => x
                                         | _ => []
                                         end) H) as H2.
          cbv beta iota delta [validation_ran] in H1, H2.
          apply validation_filename_inj in H1. auto. }
      destruct E as [-> E]. inversion E; subst r' rs'.
      split; [exact Hr|]. split.
      * intros o Ho. apply in_app_or in Ho as [Ho|Ho].
        -- rewrite Forall_forall in Hq2. exact (Hq2 _ Ho o eq_refl).
        -- simpl in Ho.
           destruct Ho as [H|[H|[H|[H|[H|[H|[]]]]]]]; discriminate H.
      * exists pre, d. reflexivity.
Qed.

(** C8 (the code departs from the claim).  The claim: an invalid or missing
    package path is reported, usage help is printed and the program ends
    before any database resource is opened.  In [validate_package_path] the
    path string itself is the first operand of the [or], so every non-empty
    path passes: for a non-empty path that is neither a directory nor a
    file (and is not named [.zip]) no usage help is printed and
    [duckdb.connect] is called right after the temporary directory is
    made. *)
Theorem C8_invalid_path_reaches_connect package_location DB_FILE w :
  package_location <> [] ->
  isdir w package_location = false ->
  isfile w package_location = false ->
  ends_with (py ".zip") package_location = false ->
  res_of (validate_package_path package_location w) = Ok tt
  /\ ~ In PrintHelp (evs_of (main package_location DB_FILE w))
  /\ exists d rest,
       evs_of (main package_location DB_FILE w)
       = MkTemp d :: Connect DB_FILE :: rest.
Proof.
  intros Hne Hd Hf Hzip.
  assert (E : str_eqb package_location [] = false)
    by (destruct package_location; [congruence|reflexivity]).
  split; [|split].
  - unfold validate_package_path. rewrite E. reflexivity.
  - rewrite main_eq, E. cbn [negb orb].
    destruct (load_package_outcome package_location DB_FILE w)
      as [[_ Hn]|(_ & pre & R & r & rs & d & (_ & _ & Hq) & Ht)].
    + rewrite Forall_forall in Hn. intros Hin. exact (Hn _ Hin eq_refl).
    + rewrite Ht. intros Hin. apply in_app_or in Hin as [Hin|Hin].
      * rewrite Forall_forall in Hq. exact (Hq _ Hin eq_refl).
      * simpl in Hin.
        destruct Hin as [H|[H|[H|[H|[H|[H|[]]]]]]]; discriminate H.
  - rewrite main_eq, E. cbn [negb orb].
    unfold load_package, with_temp_dir. destruct (mkdtemp w) as [w1 d].
    unfold unpack. rewrite Hzip. unfold bind at 1, ret. unfold bind at 1.
    destruct (DuckDBClient_first DB_FILE w1) as (t & Ht).
    destruct (DuckDBClient DB_FILE w1) as [[[[]|e] w2] t2];
      unfold evs_of in Ht; simpl in Ht; subst t2.
    + destruct (load_and_serve package_location w2) as [[r3 w3] t3].
      exists d. eexists. reflexivity.
    + exists d. eexists. reflexivity.
Qed.

(** C10.  When the file cannot be opened or its execution raises,
    [execute_sql_file] logs the error and returns [None]; whenever the
    validation script fails or returns no row, [validate_targetcomponentid]
    returns normally, having done nothing but that call; it ends the run
    exactly when the script ran and returned at least one row. *)
Theorem C10_failing_script_is_not_fatal R w :
  (forall dirname sql_filename e,
      snd (run_sql_file w (path_join dirname sql_filename)) = SqlRaises e
      \/ snd (run_sql_file w (path_join dirname sql_filename)) = FetchRaises e ->
      res_of (execute_sql_file dirname sql_filename w) = Ok None
      /\ In (Log ERROR (ERROR_SQL_EXEC_FAILED
                          (path_join dirname sql_filename) e))
            (evs_of (execute_sql_file dirname sql_filename w)))
  /\ ((forall r rs,
         snd (run_sql_file w
                (path_join SQL_RESOURCES_PATH (validation_filename R)))
         <> Rows (r :: rs)) ->
      res_of (validate_targetcomponentid R w) = Ok tt
      /\ evs_of (validate_targetcomponentid R w)
         = evs_of (execute_sql_file SQL_RESOURCES_PATH
                     (validation_filename R) w))
  /\ (res_of (validate_targetcomponentid R w) = Raise SystemExit
      <-> exists r rs,
            snd (run_sql_file w
                   (path_join SQL_RESOURCES_PATH (validation_filename R)))
            = Rows (r :: rs)).
Proof.
  split; [|split].
  - intros dirname sql_filename e H. rewrite execute_sql_file_eq.
    unfold res_of, evs_of. cbn [fst snd].
    destruct H as [-> | ->]; simpl; auto.
  - intros H. rewrite validate_eq, execute_sql_file_eq. cbv zeta.
    destruct (snd (run_sql_file w
                     (path_join SQL_RESOURCES_PATH (validation_filename R))))
      as [[|r rs]|e|e]; try (split; reflexivity).
    exfalso. exact (H r rs eq_refl).
  - rewrite validate_eq. cbv zeta.
    destruct (snd (run_sql_file w
                     (path_join SQL_RESOURCES_PATH (validation_filename R))))
      as [[|r rs]|e|e]; unfold res_of; simpl; split;
      try discriminate; try (intros (r' & rs' & H); discriminate H);
      eauto.
Qed.

End DriverTheory.

(* ================================================================== *)
(** * Rules 2 to 8 are literal replacements *)
(* ================================================================== *)

Section LiteralRules.
Context {U : Unicode}.

Lemma starts_with_app (a b s : str) :
  starts_with (a ++ b) s
  = starts_with a s && starts_with b (skipn (List.length a) s).
Proof.
  revert s. induction a as [|x a IH]; intros s; [reflexivity|].
  destruct s as [|y s]; [reflexivity|]. simpl.
  rewrite IH. destruct (char_eqb x y); reflexivity.
Qed.

Lemma starts_with_firstn (a s : str) :
  starts_with a s = true -> firstn (List.length a) s = a.
Proof.
  revert s. induction a as [|x a IH]; intros s H; [reflexivity|].
  destruct s as [|y s]; [discriminate|]. simpl in *.
  apply andb_true_iff in H as [E H]. apply char_eqb_eq in E as ->.
  rewrite (IH s H). reflexivity.
Qed.

Lemma lit_match_eq (A : Type) (w : str) :
  forall (k : cont A) pos s c,
    lit_match w k pos s c
    = if starts_with w s
      then k (pos + List.length w) (skipn (List.length w) s) c
      else None.
Proof.
  induction w as [|x w IH]; intros k pos s c; simpl.
  - rewrite Nat.add_0_r. reflexivity.
  - destruct s as [|y s]; [reflexivity|].
    destruct (char_eqb x y); [|reflexivity].
    rewrite IH, Nat.add_succ_r. reflexivity.
Qed.

(** The matcher on a literal pattern: a prefix test. *)
Lemma mt_literal (A : Type) (r : regex) :
  is_literal r = true ->
  forall (k : cont A) pos s c,
    mt r k pos s c
    = if starts_with (lit_text r) s
      then k (pos + List.length (lit_text r))
             (skipn (List.length (lit_text r)) s) (lit_caps r c)
      else None.
Proof.
  induction r as [w|r1 IH1 r2 IH2|r1 IH1 r2 IH2|r1 IH1|p lo hi|i r1 IH1| |];
    simpl; intros Hl k pos s c; try discriminate.
  - apply lit_match_eq.
  - apply andb_true_iff in Hl as [H1 H2].
    rewrite (IH1 H1), starts_with_app.
    destruct (starts_with (lit_text r1) s); [|reflexivity]. simpl.
    rewrite (IH2 H2).
    destruct (starts_with (lit_text r2) (skipn (List.length (lit_text r1)) s));
      [|reflexivity].
    rewrite length_app, skipn_skipn, Nat.add_assoc.
    rewrite (Nat.add_comm (List.length (lit_text r2))). reflexivity.
  - rewrite (IH1 Hl).
    destruct (starts_with (lit_text r1) s) eqn:E; [|reflexivity].
    replace (pos + List.length (lit_text r1) - pos)
      with (List.length (lit_text r1)) by lia.
    rewrite (starts_with_firstn _ _ E). reflexivity.
Qed.

Lemma sub_loop_literal r tpl :
  is_literal r = true -> lit_text r <> [] ->
  forall s pos skip,
    sub_loop r (expand tpl) pos skip s
    = Ok (replace_from (lit_text r) (literal_expansion r tpl) skip s).
Proof.
  intros Hl Hne. induction s as [|x s IH]; intros pos skip.
  - destruct skip; cbn [sub_loop replace_from]; [|reflexivity].
    unfold match_at. rewrite (mt_literal _ r Hl).
    destruct (lit_text r); [congruence|reflexivity].
  - destruct skip; cbn [sub_loop replace_from]; [|apply IH].
    unfold match_at. rewrite (mt_literal _ r Hl).
    destruct (starts_with (lit_text r) (x :: s)); [|rewrite IH; reflexivity].
    cbn [m_len].
    replace (pos + List.length (lit_text r) - pos)
      with (List.length (lit_text r)) by lia.
    assert (E : expand tpl {| m_len := List.length (lit_text r);
                              m_groups := lit_caps r [] |}
                = Ok (literal_expansion r tpl)) by reflexivity.
    rewrite E. cbn [rbind].
    destruct (List.length (lit_text r)) eqn:El.
    + destruct (lit_text r); [congruence|discriminate El].
    + rewrite IH. reflexivity.
Qed.

Lemma literal_rule (t : regex * replacement) tpl s :
  snd t = Template tpl -> is_literal (fst t) = true -> lit_text (fst t) <> [] ->
  apply_transformation t s
  = Ok (str_replace (lit_text (fst t)) (literal_expansion (fst t) tpl) s).
Proof.
  intros Et Hl Hne. unfold apply_transformation, re_sub. rewrite Et.
  apply sub_loop_literal; assumption.
Qed.

(** X1.  Each of the rules 2 to 8 is a plain replacement of every occurrence
    of one fixed text by another, and never raises. *)
Theorem X1_rules_are_literal_replacements (R : ReleaseType) (s : str) :
  apply_transformation (drop_suffix_from_refsetdescriptor R) s
    = Ok (str_replace (py "RefsetDescriptorrefset_" ++ short_code R)
                      (py "RefsetDescriptor_" ++ short_code R) s)
  /\ apply_transformation drop_suffix_from_simplerefset s
     = Ok (str_replace (py "SimpleRefset") (py "Simple") s)
  /\ apply_transformation drop_suffix_from_associationreference s
     = Ok (str_replace (py "AssociationReference") (py "Association") s)
  /\ apply_transformation shorten_language_prefix s
     = Ok (str_replace (py "Language") (py "Lang") s)
  /\ apply_transformation shorten_referenceset s
     = Ok (str_replace (py "ReferenceSet") [] s)
  /\ apply_transformation add_underscore_to_relationship_concrete_values s
     = Ok (str_replace (py "RelationshipConcreteValues")
                       (py "Relationship_Concrete_Values") s)
  /\ apply_transformation add_underscore_to_stated_relationship s
     = Ok (str_replace (py "StatedRelationship") (py "Stated_Relationship") s).
Proof.
  destruct R; repeat split;
    match goal with
    | |- apply_transformation ?t s = _ =>
        rewrite (literal_rule t _ s eq_refl eq_refl);
        [reflexivity|discriminate]
    end.
Qed.

End LiteralRules.

(* ================================================================== *)
(** * What a scan returns and when it fails *)
(* ================================================================== *)

Section ScanTheory.
Context {U : Unicode}.

(** The rules after the first one never raise. *)
Lemma later_rules_ok R s :
  exists t, rewrite_chain (tl (regex_transformations R)) s = Ok t.
Proof.
  unfold regex_transformations. cbn [tl].
  destruct R;
    repeat (rewrite rewrite_chain_cons;
            match goal with
            | |- context [apply_transformation ?t ?x] =>
                rewrite (literal_rule t _ x eq_refl eq_refl)
                  by discriminate
            end; cbn [rbind]);
    eexists; reflexivity.
Qed.

(** The groups of an accepted name: group 1 is [sct] or [der], group 2 is
    present. *)
Lemma accepted_groups R f m :
  re_match (filter_regex R) f = Some m ->
  (group m 1 = Some (py "sct") \/ group m 1 = Some (py "der"))
  /\ exists ct, group m 2 = Some ct.
Proof.
  intros H.
  apply accepted_name in H
    as (n & s' & (Hcore & _) & _ & _ & _ & G1 & G2 & _).
  rewrite G1, G2. split; [|eauto].
  destruct Hcore as [-> | ->]; auto.
Qed.

(** Base extraction raises exactly for a [der] name without summary. *)
Lemma extract_strategy_outcome R f m :
  re_match (filter_regex R) f = Some m ->
  (lacks_summary R f = true /\ extract_strategy R m = Raise TypeError)
  \/ (lacks_summary R f = false /\ exists b, extract_strategy R m = Ok b).
Proof.
  intros H. unfold lacks_summary. rewrite H.
  destruct (accepted_groups R f m H) as [[G1|G1] (ct & G2)];
    unfold extract_strategy; rewrite G1, G2.
  - right. split; [reflexivity|].
    destruct (group m 3) as [w|]; simpl;
      try destruct (negb (str_eqb w (py "OWLExpression"))); eauto.
  - destruct (group m 3) as [w|]; simpl.
    + right. eauto.
    + left. auto.
Qed.

Lemma rejected_has_summary R f :
  accepts R f = false -> lacks_summary R f = false.
Proof.
  unfold accepts, lacks_summary.
  destruct (re_match (filter_regex R) f); [discriminate|reflexivity].
Qed.

(** The loop body on one name: rejected, named, or [TypeError]. *)
Lemma table_name_outcome R f :
  (accepts R f = false /\ table_name_of R f = None)
  \/ (accepts R f = true /\ lacks_summary R f = false
      /\ exists n, table_name_of R f = Some (Ok n))
  \/ (accepts R f = true /\ lacks_summary R f = true
      /\ table_name_of R f = Some (Raise TypeError)).
Proof.
  unfold accepts, table_name_of.
  destruct (re_match (filter_regex R) f) as [m|] eqn:H; [|left; auto].
  right.
  assert (N : normalize R f
              = rbind (extract_strategy R m) (fun b =>
                rbind (rewrite_chain (tl (regex_transformations R))
                         (b ++ skipn (m_len m) f))
                      (fun s => Ok (lower s)))).
  { unfold normalize, regex_transformations.
    rewrite rewrite_chain_cons.
    unfold apply_transformation at 1, extract_content_or_summary.
    cbn [fst snd tl]. rewrite (re_sub_accepted R _ f m H).
    destruct (extract_strategy R m); reflexivity. }
  rewrite N.
  destruct (extract_strategy_outcome R f m H) as [[L E]|[L (b & E)]];
    rewrite E; cbn [rbind].
  - right. auto.
  - left. split; [reflexivity|]. split; [exact L|].
    destruct (later_rules_ok R (b ++ skipn (m_len m) f)) as (t & Ht).
    rewrite Ht. simpl. eauto.
Qed.

Lemma scan_files_outcome R dirname files :
  (existsb (lacks_summary R) files = false
   /\ scan_files R dirname files = Ok (entries_of R dirname files))
  \/ (existsb (lacks_summary R) files = true
      /\ scan_files R dirname files = Raise TypeError).
Proof.
  induction files as [|f files IH]; [left; auto|].
  cbn [scan_files existsb entries_of flat_map].
  destruct (table_name_outcome R f)
    as [(A & T)|[(_ & L & n & T)|(_ & L & T)]].
  - rewrite T, (rejected_has_summary R f A). exact IH.
  - rewrite T, L. cbn [rbind orb].
    destruct IH as [(E & S)|(E & S)]; rewrite S; [left|right]; auto.
  - rewrite T, L. right. auto.
Qed.

Lemma entries_of_cons R dirname f files :
  entries_of R dirname (f :: files)
  = match table_name_of R f with
    | Some (Ok n) => [(n, dirname, f)]
    | _ => []
    end ++ entries_of R dirname files.
Proof. reflexivity. Qed.

Lemma scan_files_length R dirname files :
  existsb (lacks_summary R) files = false ->
  List.length (entries_of R dirname files)
  = List.length (filter (accepts R) files).
Proof.
  induction files as [|f files IH]; [reflexivity|].
  cbn [existsb filter]. intros E. apply orb_false_iff in E as [L E].
  rewrite entries_of_cons.
  destruct (table_name_outcome R f)
    as [(A & T)|[(A & _ & n & T)|(A & L' & T)]]; rewrite T, A;
    [exact (IH E)|simpl; f_equal; exact (IH E)|congruence].
Qed.

Lemma scan_tree_outcome R tree :
  (tree_lacks_summary R tree = false
   /\ scan_tree R tree = Ok (tree_entries R tree))
  \/ (tree_lacks_summary R tree = true
      /\ scan_tree R tree = Raise TypeError).
Proof.
  induction tree as [|[dirname files] tree IH]; [left; auto|].
  cbn [scan_tree tree_lacks_summary tree_entries existsb flat_map fst snd].
  destruct (scan_files_outcome R dirname files) as [(E & S)|(E & S)];
    rewrite S, E; cbn [rbind orb]; [|right; auto].
  destruct IH as [(E' & S')|(E' & S')]; rewrite S'; [left|right]; auto.
Qed.

Lemma tree_lacks_summary_iff R tree :
  tree_lacks_summary R tree = true
  <-> exists dirname f, listed tree dirname f /\ lacks_summary R f = true.
Proof.
  unfold tree_lacks_summary, listed. rewrite existsb_exists. split.
  - intros ([dirname files] & Hin & H). apply existsb_exists in H as (f & Hf & L).
    exists dirname, f. eauto.
  - intros (dirname & f & (files & Hin & Hf) & L).
    exists (dirname, files). split; [exact Hin|].
    apply existsb_exists. eauto.
Qed.

Lemma in_tree_entries R tree n dirname f :
  In (n, dirname, f) (tree_entries R tree)
  <-> listed tree dirname f /\ table_name_of R f = Some (Ok n).
Proof.
  unfold tree_entries, entries_of, listed. rewrite in_flat_map. split.
  - intros ([d files] & Hin & H). cbn [fst snd] in H.
    apply in_flat_map in H as (g & Hg & H).
    destruct (table_name_of R g) as [[m|e]|] eqn:T;
      [|destruct H|destruct H].
    destruct H as [H|H]; [|destruct H]. inversion H; subst. eauto.
  - intros ((files & Hin & Hf) & T).
    exists (dirname, files). split; [exact Hin|]. cbn [fst snd].
    apply in_flat_map. exists f. split; [exact Hf|].
    rewrite T. left. reflexivity.
Qed.

(** X2.  [get_table_details] either returns a plan or raises [TypeError];
    it raises exactly when the tree lists a name that the filter accepts as a
    [der] file without summary. *)
Theorem X2_scan_fails_only_on_missing_summary R tree :
  ((exists plan, get_table_details tree R = Ok plan)
   \/ get_table_details tree R = Raise TypeError)
  /\ (get_table_details tree R = Raise TypeError
      <-> exists dirname f, listed tree dirname f /\ lacks_summary R f = true).
Proof.
  unfold get_table_details. rewrite <- tree_lacks_summary_iff.
  destruct (scan_tree_outcome R tree) as [(E & S)|(E & S)];
    rewrite S, E; cbn [rbind].
  - split; [left; eauto|]. split; discriminate.
  - split; [right; reflexivity|]. split; auto.
Qed.

(** X3.  A plan that [get_table_details] returns holds exactly the listed
    files that the filter accepts, each with its directory and the name the
    rewrite loop gives it, once per listing. *)
Theorem X3_plan_entries R tree plan :
  get_table_details tree R = Ok plan ->
  (forall n dirname f,
      In (n, dirname, f) plan
      <-> listed tree dirname f /\ table_name_of R f = Some (Ok n))
  /\ List.length plan = accepted_count R tree.
Proof.
  unfold get_table_details. intros H.
  destruct (scan_tree_outcome R tree) as [(E & S)|(E & S)];
    rewrite S in H; cbn [rbind] in H; [|discriminate].
  inversion H; subst plan. clear H. split.
  - intros n dirname f. rewrite <- in_tree_entries. split.
    + apply Permutation_in, sort_entries_perm.
    + apply Permutation_in, Permutation_sym, sort_entries_perm.
  - rewrite (Permutation_length (sort_entries_perm _)).
    unfold tree_entries, accepted_count. clear S.
    induction tree as [|[dirname files] tree IH]; [reflexivity|].
    cbn [flat_map map list_sum fst snd tree_lacks_summary existsb] in *.
    apply orb_false_iff in E as [E1 E2].
    rewrite length_app, (IH E2), (scan_files_length R dirname files E1).
    reflexivity.
Qed.

(** X4.  Every table name of a returned plan is free of upper-case ASCII
    letters (Python's lower-casing of non-ASCII characters is assumed to
    produce none). *)
Theorem X4_table_names_lower_case R tree plan :
  lower_expansion_ok ->
  get_table_details tree R = Ok plan ->
  forall x, In x plan -> no_upper (table_of x).
Proof.
  unfold get_table_details. intros HU H [[n dirname] f] Hin.
  destruct (scan_tree_outcome R tree) as [(E & S)|(E & S)];
    rewrite S in H; cbn [rbind] in H; [|discriminate].
  inversion H; subst plan. clear H.
  apply (Permutation_in _ (sort_entries_perm _)) in Hin.
  apply in_tree_entries in Hin as [_ T].
  unfold table_name_of in T.
  destruct (re_match (filter_regex R) f); [|discriminate].
  inversion T as [T']. unfold normalize in T'.
  destruct (rewrite_chain (regex_transformations R) f) as [t|e];
    [|discriminate].
  simpl in T'. inversion T'. cbn [table_of fst]. apply lower_no_upper, HU.
Qed.

End ScanTheory.

(* ================================================================== *)
(** * A name belongs to one release type *)
(* ================================================================== *)

Section Exclusive.
Context {U : Unicode}.

Lemma drop_while_app p (a b : str) :
  forallb p a = true -> drop_while p (a ++ b) = drop_while p b.
Proof.
  induction a as [|x a IH]; simpl; [reflexivity|].
  intros H. apply andb_true_iff in H as [-> H]. auto.
Qed.

Lemma drop_while_stop p x (s : str) :
  p x = false -> drop_while p (x :: s) = x :: s.
Proof. intros H. simpl. rewrite H. reflexivity. Qed.

Lemma forallb_rev_true (p : char -> bool) (l : str) :
  forallb p l = true -> forallb p (rev l) = true.
Proof.
  rewrite !forallb_forall. intros H x Hx. apply H, in_rev, Hx.
Qed.

Lemma label_initial_render R n :
  well_formed n ->
  label_initial (render (py "_") R n) = hd_error (value R).
Proof.
  intros (_ & _ & _ & _ & Hlg & Hns & (L7 & _) & (L8 & _)).
  set (P := (if leading_x n then py "x" else []) ++ kind_core n ++ py "2"
            ++ py "_" ++ content n ++ py "_" ++ refset_digits n
            ++ opt_str (summary_token n)).
  set (T := namespace_digits n ++ py "_" ++ date n ++ py ".txt").
  assert (E : render (py "_") R n
              = ((P ++ value R ++ language_text (language n))
                 ++ py "_" ++ namespace n) ++ T).
  { unfold render, P, T, language_text.
    repeat rewrite <- app_assoc. reflexivity. }
  assert (LT : List.length (rev T) <= 20).
  { unfold T. rewrite length_rev, !length_app, L7, L8. simpl. lia. }
  assert (LT' : 20 - List.length (rev T) = 0).
  { unfold T. rewrite length_rev, !length_app, L7, L8. reflexivity. }
  unfold label_initial. rewrite E, rev_app_distr, skipn_app, LT'.
  rewrite (skipn_all2 _ LT). cbn [app skipn].
  rewrite rev_app_distr, (rev_app_distr (py "_")), <- app_assoc.
  rewrite (drop_while_app is_ascii_upper (rev (namespace n))).
  2:{ apply forallb_rev_true. destruct Hns as [-> |[_ H]]; [reflexivity|].
      exact H. }
  change (rev (py "_")) with [95%N]. cbn [app].
  rewrite (drop_while_stop is_ascii_upper 95%N) by reflexivity.
  rewrite !rev_app_distr, <- !app_assoc.
  rewrite (drop_while_app _ (rev (language_text (language n)))).
  2:{ apply forallb_rev_true. unfold language_text.
      destruct (language n) as [l|]; [|reflexivity].
      destruct Hlg as [_ Hl]. simpl. exact Hl. }
  destruct R; reflexivity.
Qed.

(** X5.  A name that the filter accepts for one release type is rejected
    for every other release type. *)
Theorem X5_release_types_exclusive R R' f :
  accepts R f = true -> accepts R' f = true -> R = R'.
Proof.
  unfold accepts. intros H H'.
  destruct (re_match (filter_regex R) f) as [m|] eqn:E; [|discriminate].
  destruct (re_match (filter_regex R') f) as [m'|] eqn:E'; [|discriminate].
  apply accepted_name in E as (n & s1 & Hwf & Ef & Hs1 & _).
  apply accepted_name in E' as (n' & s2 & Hwf' & Ef' & Hs2 & _).
  assert (Er : render (py "_") R n = render (py "_") R' n').
  { rewrite Ef in Ef'.
    destruct Hs1 as [-> | ->], Hs2 as [-> | ->].
    - rewrite !app_nil_r in Ef'. exact Ef'.
    - rewrite app_nil_r in Ef'. exfalso. exact (render_not_nl _ _ _ _ Ef').
    - rewrite app_nil_r in Ef'. exfalso.
      exact (render_not_nl _ _ _ _ (eq_sym Ef')).
    - apply app_inv_tail in Ef'. exact Ef'. }
  pose proof (label_initial_render R n Hwf) as L.
  rewrite Er, (label_initial_render R' n' Hwf') in L.
  destruct R, R'; try reflexivity; discriminate L.
Qed.

End Exclusive.

(* ================================================================== *)
(** * Priorities of the load plan *)
(* ================================================================== *)

Section Priorities.

(** X6.  In a sorted plan no entry of a directory without the marker [sct2]
    comes before an entry of a marked directory, and among entries that
    agree on the marker no entry without [concept] in its table name comes
    before one that has it. *)
Theorem X6_terminology_then_concept_first (plan : list entry) i j a b :
  nth_error (sort_entries plan) i = Some a ->
  nth_error (sort_entries plan) j = Some b ->
  i < j ->
  (contains (py "sct2") (dir_of b) = true ->
   contains (py "sct2") (dir_of a) = true)
  /\ (contains (py "sct2") (dir_of a) = contains (py "sct2") (dir_of b) ->
      contains (py "concept") (table_of b) = true ->
      contains (py "concept") (table_of a) = true).
Proof.
  intros Ha Hb Hij.
  pose proof (sorted_nth _ (sort_entries_sorted plan) i j a b Ha Hb Hij) as H.
  unfold key_le, sort_key, key_ltb in H.
  destruct (contains (py "sct2") (dir_of a)),
           (contains (py "sct2") (dir_of b)),
           (contains (py "concept") (table_of a)),
           (contains (py "concept") (table_of b));
    simpl in H; try discriminate H; split; auto; discriminate.
Qed.

End Priorities.

(* ================================================================== *)
(** * The calls of a run, in order *)
(* ================================================================== *)

Section RunTheory.
Context {U : Unicode} {Wd : World}.

Lemma bind_evs {A B} (m : M A) (f : A -> M B) w :
  evs_of (bind m f w)
  = evs_of (m w)
    ++ match res_of (m w) with
       | Ok a => evs_of (f a (world_of (m w)))
       | Raise _ => []
       end.
Proof.
  unfold bind, evs_of, res_of, world_of.
  destruct (m w) as [[[a|e] w1] t1]; cbn [fst snd].
  - destruct (f a w1) as [[r w2] t2]. reflexivity.
  - rewrite app_nil_r. reflexivity.
Qed.

Lemma bind_res {A B} (m : M A) (f : A -> M B) w :
  res_of (bind m f w)
  = match res_of (m w) with
    | Ok a => res_of (f a (world_of (m w)))
    | Raise e => Raise e
    end.
Proof.
  unfold bind, res_of, world_of.
  destruct (m w) as [[[a|e] w1] t1]; cbn [fst snd]; [|reflexivity].
  destruct (f a w1) as [[r w2] t2]. reflexivity.
Qed.

Lemma bind_world {A B} (m : M A) (f : A -> M B) w :
  world_of (bind m f w)
  = match res_of (m w) with
    | Ok a => world_of (f a (world_of (m w)))
    | Raise e => world_of (m w)
    end.
Proof.
  unfold bind, res_of, world_of.
  destruct (m w) as [[[a|e] w1] t1]; cbn [fst snd]; [|reflexivity].
  destruct (f a w1) as [[r w2] t2]. reflexivity.
Qed.

Lemma calls_app t1 t2 : calls (t1 ++ t2) = calls t1 ++ calls t2.
Proof. unfold calls. apply flat_map_app. Qed.

Lemma sql_logs_idle dirname fn o : calls (sql_logs dirname fn o) = [].
Proof. destruct o; reflexivity. Qed.

Lemma execute_ddl_calls R w :
  res_of (execute_ddl R w) = Ok tt
  /\ calls (evs_of (execute_ddl R w)) = [Script (ddl_filename R)].
Proof.
  unfold execute_ddl. rewrite bind_res, bind_evs, execute_sql_file_eq.
  unfold res_of, evs_of. cbn [fst snd]. split; [reflexivity|].
  cbn [ret snd]. rewrite app_nil_r.
  change (RunSqlFile ?d ?f ?o :: ?l) with ([RunSqlFile d f o] ++ l).
  rewrite calls_app, sql_logs_idle. reflexivity.
Qed.

Lemma import_text_file_calls x w :
  res_of (import_text_file (table_of x) (dir_of x) (file_of x) w) = Ok tt
  /\ calls (evs_of (import_text_file (table_of x) (dir_of x) (file_of x) w))
     = [Statement (copy_of x)].
Proof.
  unfold import_text_file. rewrite bind_res, bind_evs, conn_execute_eq.
  unfold res_of, evs_of, world_of, copy_of. cbn [fst snd].
  destruct (snd (execute w (COPY (table_of x)
                              (path_join (dir_of x) (file_of x)))));
    split; reflexivity.
Qed.

Lemma import_all_calls td :
  forall w, res_of (import_all td w) = Ok tt
            /\ calls (evs_of (import_all td w))
               = map (fun x => Statement (copy_of x)) td.
Proof.
  induction td as [|x td IH]; intros w; [split; reflexivity|].
  assert (E : import_all (x :: td)
              = bind (import_text_file (table_of x) (dir_of x) (file_of x))
                     (fun _ => import_all td))
    by (destruct x as [[tn dn] fn]; reflexivity).
  rewrite E, bind_res, bind_evs.
  destruct (import_text_file_calls x w) as [Hr Hc]. rewrite Hr.
  destruct (IH (world_of (import_text_file (table_of x) (dir_of x)
                            (file_of x) w))) as [Hr' Hc'].
  split; [exact Hr'|]. rewrite calls_app, Hc, Hc'. reflexivity.
Qed.

Lemma validate_calls R w :
  calls (evs_of (validate_targetcomponentid R w))
  = [Script (validation_filename R)].
Proof.
  rewrite validate_eq. cbv zeta.
  destruct (snd (run_sql_file w
                   (path_join SQL_RESOURCES_PATH (validation_filename R))))
    as [[|r rs]|e|e]; reflexivity.
Qed.

(** X7.  For a release type with a non-empty plan the connection receives
    the DDL script, then one COPY per plan entry in plan order, then the
    validation script - whatever the DDL script and the imports answer. *)
Theorem X7_ddl_imports_validation_in_order
    package_location R Rs file_imported w table_details :
  get_table_details (walk w (path_join package_location (value R))) R
    = Ok table_details ->
  table_details <> [] ->
  exists rest,
    calls (evs_of (release_loop package_location (R :: Rs) file_imported w))
    = Script (ddl_filename R)
      :: map (fun x => Statement (copy_of x)) table_details
      ++ Script (validation_filename R) :: rest.
Proof.
  intros Htd Hne. cbn [release_loop].
  rewrite bind_evs. unfold get_table_details_in at 1 2 3.
  unfold res_of at 1, evs_of at 1, world_of at 1. cbn [fst snd].
  rewrite Htd.
  destruct table_details as [|x td]; [congruence|].
  set (plan := x :: td).
  rewrite bind_evs.
  destruct (execute_ddl_calls R w) as [Hr Hc]. rewrite Hr.
  rewrite bind_evs.
  destruct (import_all_calls plan (world_of (execute_ddl R w))) as [Hr' Hc'].
  rewrite Hr'. rewrite bind_evs.
  rewrite !calls_app, Hc, Hc', validate_calls.
  eexists. cbn [calls flat_map app]. reflexivity.
Qed.

(** X8.  When neither release type has a matching file, the run scans both,
    warns twice and closes the connection: no script, no import, no UI
    start, no prompt, and it ends normally. *)
Theorem X8_nothing_to_import package_location w :
  get_table_details (walk w (path_join package_location (value FULL))) FULL
    = Ok [] ->
  get_table_details (walk w (path_join package_location (value SNAPSHOT)))
    SNAPSHOT = Ok [] ->
  load_and_serve package_location w
  = (Ok tt, close_connection w,
     [Walk (path_join package_location (value FULL));
      Log WARNING (WARNING_NO_MATCHING_FILES FULL);
      Walk (path_join package_location (value SNAPSHOT));
      Log WARNING (WARNING_NO_MATCHING_FILES SNAPSHOT);
      Close; Log DEBUG DEBUG_CONNECTION_CLOSED]).
Proof.
  intros HF HS.
  unfold load_and_serve, try_finally, release_loop, bind,
    get_table_details_in.
  rewrite HF. cbn [logging emit]. rewrite HS. reflexivity.
Qed.

End RunTheory.

(* ================================================================== *)
(** * The shape of a whole run *)
(* ================================================================== *)

Section WholeRun.
Context {U : Unicode} {Wd : World}.

Lemma try_finally_evs {A} (body : M A) (fin : M unit) w :
  evs_of (try_finally body fin w)
  = evs_of (body w) ++ evs_of (fin (world_of (body w))).
Proof.
  unfold try_finally, evs_of, world_of.
  destruct (body w) as [[r w1] t1]. cbn [fst snd].
  destruct (fin w1) as [[r2 w2] t2]. reflexivity.
Qed.

(** The events of [load_and_serve]: the loop, the UI part when a file was
    imported, the closing of the connection. *)
Lemma load_and_serve_evs package_location w :
  evs_of (load_and_serve package_location w)
  = evs_of (release_loop package_location [FULL; SNAPSHOT] false w)
    ++ match res_of (release_loop package_location [FULL; SNAPSHOT] false w)
       with
       | Ok true =>
           evs_of (serve_ui
                     (world_of (release_loop package_location
                                  [FULL; SNAPSHOT] false w)))
       | _ => []
       end
    ++ closing [].
Proof.
  unfold load_and_serve. rewrite try_finally_evs, bind_evs, <- app_assoc.
  f_equal. f_equal.
  destruct (res_of (release_loop package_location [FULL; SNAPSHOT] false w))
    as [[|]|e]; reflexivity.
Qed.

Lemma serve_ui_evs w :
  exists o logs,
    evs_of (serve_ui w)
    = Execute UI_START_COMMAND o
      :: logs ++ [Log INFO INFO_UI_RUNNING; Input]
    /\ (o = Done -> logs = [])
    /\ (forall e, o = Failed e \/ o = CatalogException e ->
                  logs = [Log ERROR (ERROR_UI_START_FAILED e)]).
Proof.
  unfold serve_ui, start_ui, bind, conn_execute, input, evs_of.
  destruct (execute w UI_START_COMMAND) as [w1 o]. exists o.
  destruct o as [|e|e]; cbn [ret logging emit];
    destruct (console_input w1) as [w2 o2]; cbn [fst snd app].
  - exists []. split; [reflexivity|]. split; [reflexivity|].
    intros e [H|H]; discriminate H.
  - exists [Log ERROR (ERROR_UI_START_FAILED e)].
    split; [reflexivity|]. split; [discriminate|].
    intros e' [H|H]; inversion H; reflexivity.
  - exists [Log ERROR (ERROR_UI_START_FAILED e)].
    split; [reflexivity|]. split; [discriminate|].
    intros e' [H|H]; inversion H; reflexivity.
Qed.

Lemma loop_no_ui package_location Rs b w :
  Forall no_ui (evs_of (release_loop package_location Rs b w)).
Proof.
  destruct (release_loop_outcome package_location Rs b w)
    as [(_ & H & _)|(_ & pre & R & r & rs & (_ & H & _) & ->)]; [exact H|].
  apply Forall_app. split; [exact H|].
  repeat constructor; intros o E; discriminate E.
Qed.

Lemma import_all_in x td :
  In x td ->
  forall w, exists o, In (Execute (copy_of x) o) (evs_of (import_all td w)).
Proof.
  induction td as [|y td IH]; intros Hin w; [destruct Hin|].
  assert (E : import_all (y :: td)
              = bind (import_text_file (table_of y) (dir_of y) (file_of y))
                     (fun _ => import_all td))
    by (destruct y as [[tn dn] fn]; reflexivity).
  rewrite E, bind_evs.
  destruct (import_text_file_calls y w) as [Hr _]. rewrite Hr.
  destruct Hin as [-> |Hin].
  - exists (snd (execute w (copy_of x))). apply in_or_app. left.
    unfold import_text_file. rewrite bind_evs, conn_execute_eq.
    apply in_or_app. left. left. reflexivity.
  - destruct (IH Hin (world_of (import_text_file (table_of y) (dir_of y)
                                  (file_of y) w))) as (o & Ho).
    exists o. apply in_or_app. right. exact Ho.
Qed.

(** The loop reports an import only if a COPY was issued. *)
Lemma loop_imported package_location Rs :
  forall b w,
    res_of (release_loop package_location Rs b w) = Ok true ->
    b = true
    \/ exists x o, In (Execute (copy_of x) o)
                      (evs_of (release_loop package_location Rs b w)).
Proof.
  induction Rs as [|R Rs IH]; intros b w H.
  - left. inversion H. reflexivity.
  - cbn [release_loop] in *. rewrite bind_res in H. rewrite bind_evs.
    unfold get_table_details_in in *.
    unfold res_of at 1 in H. unfold res_of at 1, evs_of at 1, world_of at 1.
    unfold world_of at 1 in H. cbn [fst snd] in *.
    destruct (get_table_details
                (walk w (path_join package_location (value R))) R)
      as [[|x td]|ex]; [| |discriminate H].
    + rewrite bind_res in H. rewrite bind_evs.
      cbn [logging emit res_of evs_of world_of fst snd] in *.
      destruct (IH b w H) as [Hb|(x & o & Hin)]; [left; exact Hb|].
      right. exists x, o. right. right. exact Hin.
    + right. destruct (import_all_in x (x :: td) (or_introl eq_refl)
                         (world_of (execute_ddl R w))) as (o & Ho).
      exists x, o. right. rewrite bind_evs. cbn [app].
      destruct (execute_ddl_calls R w) as [Hr _]. rewrite Hr.
      apply in_or_app. right. rewrite bind_evs.
      apply in_or_app. left. exact Ho.
Qed.

Lemma unpack_idle package_location temp_dir w :
  idle (evs_of (unpack package_location temp_dir w)).
Proof.
  unfold unpack, idle.
  destruct (ends_with (py ".zip") package_location); [|reflexivity].
  destruct (isfile w package_location); simpl; [|reflexivity].
  unfold bind, logging, emit.
  destruct (extractall w package_location temp_dir) as [w2 [e|]]; reflexivity.
Qed.

Lemma DuckDBClient_raises db_path w e :
  res_of (DuckDBClient db_path w) = Raise e ->
  evs_of (DuckDBClient db_path w) = [Connect db_path].
Proof.
  unfold DuckDBClient, bind, duckdb_connect, conn_execute, res_of, evs_of.
  destruct (connect w db_path) as [w1 [e'|]]; [reflexivity|].
  destruct (execute w1 UI_INSTALL_COMMAND) as [w2 [|e1|e1]];
    cbn [logging emit fst snd]; try discriminate.
  destruct (execute w2 UI_LOAD_COMMAND) as [w3 [|e2|e2]];
    cbn [logging emit fst snd]; discriminate.
Qed.

Lemma closes_app t1 t2 : closes (t1 ++ t2) = closes t1 + closes t2.
Proof. unfold closes. rewrite filter_app, length_app. reflexivity. Qed.

Lemma unpack_closes package_location temp_dir w :
  closes (evs_of (unpack package_location temp_dir w)) = 0.
Proof.
  unfold unpack.
  destruct (ends_with (py ".zip") package_location); [|reflexivity].
  destruct (isfile w package_location); simpl; [|reflexivity].
  unfold bind, logging, emit.
  destruct (extractall w package_location temp_dir) as [w2 [e|]]; reflexivity.
Qed.

Lemma DuckDBClient_closes db_path w :
  closes (evs_of (DuckDBClient db_path w)) = 0.
Proof.
  unfold DuckDBClient, bind, duckdb_connect, conn_execute, evs_of.
  destruct (connect w db_path) as [w1 [e'|]]; [reflexivity|].
  destruct (execute w1 UI_INSTALL_COMMAND) as [w2 [|e1|e1]];
    cbn [logging emit fst snd]; try reflexivity.
  destruct (execute w2 UI_LOAD_COMMAND) as [w3 [|e2|e2]]; reflexivity.
Qed.

Lemma sql_logs_closes dirname fn o : closes (sql_logs dirname fn o) = 0.
Proof. destruct o; reflexivity. Qed.

Lemma execute_ddl_closes R w : closes (evs_of (execute_ddl R w)) = 0.
Proof.
  unfold execute_ddl. rewrite bind_evs, execute_sql_file_eq.
  unfold res_of, evs_of. cbn [fst snd ret]. rewrite app_nil_r.
  change (RunSqlFile ?d ?f ?o :: ?l) with ([RunSqlFile d f o] ++ l).
  rewrite closes_app, sql_logs_closes. reflexivity.
Qed.

Lemma import_all_closes td :
  forall w, closes (evs_of (import_all td w)) = 0.
Proof.
  induction td as [|x td IH]; intros w; [reflexivity|].
  assert (E : import_all (x :: td)
              = bind (import_text_file (table_of x) (dir_of x) (file_of x))
                     (fun _ => import_all td))
    by (destruct x as [[tn dn] fn]; reflexivity).
  rewrite E, bind_evs.
  destruct (import_text_file_calls x w) as [Hr _]. rewrite Hr.
  rewrite closes_app, IH, Nat.add_0_r.
  unfold import_text_file. rewrite bind_evs, conn_execute_eq.
  unfold res_of, evs_of, world_of. cbn [fst snd].
  destruct (snd (execute w _)); reflexivity.
Qed.

Lemma validate_closes R w :
  closes (evs_of (validate_targetcomponentid R w)) = 0.
Proof.
  rewrite validate_eq. cbv zeta.
  destruct (snd (run_sql_file w
                   (path_join SQL_RESOURCES_PATH (validation_filename R))))
    as [[|r rs]|e|e]; reflexivity.
Qed.

Lemma loop_closes package_location Rs :
  forall b w, closes (evs_of (release_loop package_location Rs b w)) = 0.
Proof.
  induction Rs as [|R Rs IH]; intros b w; [reflexivity|].
  cbn [release_loop]. rewrite bind_evs. unfold get_table_details_in.
  unfold res_of at 1, evs_of at 1, world_of at 1. cbn [fst snd].
  destruct (get_table_details
              (walk w (path_join package_location (value R))) R)
    as [[|x td]|ex]; [| |reflexivity].
  - rewrite bind_evs. cbn [logging emit res_of evs_of world_of fst snd].
    rewrite !closes_app, IH. reflexivity.
  - rewrite bind_evs. destruct (execute_ddl_calls R w) as [Hr _]. rewrite Hr.
    rewrite bind_evs.
    destruct (import_all_calls (x :: td) (world_of (execute_ddl R w)))
      as [Hr' _]. rewrite Hr'.
    rewrite bind_evs.
    rewrite !closes_app, execute_ddl_closes, import_all_closes,
      validate_closes.
    destruct (res_of (validate_targetcomponentid R _)); [|reflexivity].
    rewrite IH. reflexivity.
Qed.

Lemma serve_ui_closes w : closes (evs_of (serve_ui w)) = 0.
Proof.
  unfold serve_ui, start_ui, bind, conn_execute, input, evs_of.
  destruct (execute w UI_START_COMMAND) as [w1 o].
  destruct o as [|e|e]; cbn [ret logging emit];
    destruct (console_input w1) as [w2 o2]; reflexivity.
Qed.

Lemma DuckDBClient_ok_calls db_path w :
  res_of (DuckDBClient db_path w) = Ok tt ->
  ~ idle (evs_of (DuckDBClient db_path w)).
Proof.
  unfold DuckDBClient, bind, duckdb_connect, conn_execute, res_of, evs_of,
    idle.
  destruct (connect w db_path) as [w1 [e'|]]; [discriminate|].
  destruct (execute w1 UI_INSTALL_COMMAND) as [w2 [|e1|e1]];
    cbn [logging emit fst snd]; try (intros _; discriminate).
  destruct (execute w2 UI_LOAD_COMMAND) as [w3 [|e2|e2]];
    intros _; discriminate.
Qed.

(** The three shapes of a run of [main]. *)
Lemma main_shapes package_location DB_FILE w :
  evs_of (main package_location DB_FILE w)
    = [Log ERROR ERROR_INVALID_PACKAGE; PrintHelp]
  \/ (exists d t,
        evs_of (main package_location DB_FILE w) = MkTemp d :: t ++ [RmTemp d]
        /\ quiet t /\ idle t /\ closes t = 0)
  \/ (exists d t location w',
        evs_of (main package_location DB_FILE w)
        = MkTemp d :: t ++ evs_of (load_and_serve location w') ++ [RmTemp d]
        /\ quiet t /\ closes t = 0 /\ ~ idle t).
Proof.
  rewrite main_eq.
  destruct (negb (negb (str_eqb package_location [])
                  || isdir w package_location || isfile w package_location));
    [left; reflexivity|right].
  unfold load_package, with_temp_dir. destruct (mkdtemp w) as [w1 d].
  pose proof (bind_evs (unpack package_location d)
                (fun location =>
                   bind (DuckDBClient DB_FILE)
                        (fun _ => load_and_serve location)) w1) as E.
  destruct (bind (unpack package_location d)
              (fun location =>
                 bind (DuckDBClient DB_FILE)
                      (fun _ => load_and_serve location)) w1)
    as [[r w2] t].
  unfold evs_of at 1 in E. cbn [snd] in E. unfold evs_of at 1 2. cbn [snd].
  pose proof (unpack_quiet package_location d w1) as Q1.
  pose proof (unpack_idle package_location d w1) as I1.
  pose proof (unpack_closes package_location d w1) as C1.
  destruct (res_of (unpack package_location d w1)) as [location|e].
  - rewrite bind_evs in E.
    pose proof (DuckDBClient_quiet DB_FILE
                  (world_of (unpack package_location d w1))) as Q2.
    destruct (res_of (DuckDBClient DB_FILE
                        (world_of (unpack package_location d w1))))
      as [[]|e] eqn:Er.
    + right.
      exists d,
        (evs_of (unpack package_location d w1)
         ++ evs_of (DuckDBClient DB_FILE
                      (world_of (unpack package_location d w1)))),
        location,
        (world_of (DuckDBClient DB_FILE
                     (world_of (unpack package_location d w1)))).
      split; [rewrite E, <- !app_assoc; reflexivity|].
      split; [apply quiet_app; assumption|].
      split; [rewrite closes_app, C1, DuckDBClient_closes; reflexivity|].
      unfold idle in *. rewrite calls_app, I1.
      exact (DuckDBClient_ok_calls _ _ Er).
    + left. exists d. eexists. split; [rewrite E; reflexivity|].
      rewrite app_nil_r. split; [apply quiet_app; assumption|].
      split; [|rewrite closes_app, C1, DuckDBClient_closes; reflexivity].
      unfold idle in *. rewrite calls_app, I1.
      rewrite (DuckDBClient_raises _ _ _ Er). reflexivity.
  - left. exists d. eexists. split; [rewrite E; reflexivity|].
    rewrite app_nil_r. auto.
Qed.

End WholeRun.

(* ================================================================== *)
(** * What a run does and does not do *)
(* ================================================================== *)

Section RunProperties.
Context {U : Unicode} {Wd : World}.

Ltac ui_free :=
  repeat (apply Forall_cons || apply Forall_nil || apply Forall_app
          || split);
  try (intros ? ?; discriminate).

Lemma no_ui_not_in t o :
  Forall no_ui t -> ~ In (Execute UI_START_COMMAND o) t.
Proof.
  intros H Hin. rewrite Forall_forall in H. exact (H _ Hin o eq_refl).
Qed.

Lemma ui_start_unique pre o o1 post :
  Forall no_ui pre -> Forall no_ui post ->
  In (Execute UI_START_COMMAND o) (pre ++ Execute UI_START_COMMAND o1 :: post) ->
  o = o1.
Proof.
  intros Hpre Hpost Hin. apply in_app_or in Hin as [Hin|[E|Hin]].
  - destruct (no_ui_not_in _ _ Hpre Hin).
  - inversion E. reflexivity.
  - destruct (no_ui_not_in _ _ Hpost Hin).
Qed.

Lemma load_package_no_help package_location DB_FILE w :
  ~ In PrintHelp (evs_of (load_package package_location DB_FILE w)).
Proof.
  intros Hin.
  destruct (load_package_outcome package_location DB_FILE w)
    as [(_ & H)|(_ & pre & R & r & rs & d & (_ & _ & H) & E)].
  - rewrite Forall_forall in H. exact (H _ Hin eq_refl).
  - rewrite E in Hin. apply in_app_or in Hin as [Hin|Hin].
    + rewrite Forall_forall in H. exact (H _ Hin eq_refl).
    + repeat (destruct Hin as [Hin|Hin]; [discriminate Hin|]). exact Hin.
Qed.

(** X9.  The UI is started only after a COPY was issued, and at most once;
    whatever the start answers, the run then announces the UI, waits for the
    prompt, closes the connection and removes the temporary directory.  A
    failed start adds one error line and changes nothing else. *)
Theorem X9_ui_start_follows_an_import package_location DB_FILE w o :
  In (Execute UI_START_COMMAND o) (evs_of (main package_location DB_FILE w)) ->
  exists pre logs d,
    evs_of (main package_location DB_FILE w)
    = pre ++ Execute UI_START_COMMAND o :: logs
          ++ [Log INFO INFO_UI_RUNNING; Input;
              Close; Log DEBUG DEBUG_CONNECTION_CLOSED; RmTemp d]
    /\ Forall no_ui pre
    /\ (exists x o', In (Execute (copy_of x) o') pre)
    /\ (o = Done -> logs = [])
    /\ (forall e, o = Failed e \/ o = CatalogException e ->
                  logs = [Log ERROR (ERROR_UI_START_FAILED e)]).
Proof.
  intros Hin.
  destruct (main_shapes package_location DB_FILE w)
    as [E|[(d & t & E & Q & _)|(d & t & location & w' & E & Q & _)]].
  - rewrite E in Hin. destruct Hin as [H|[H|[]]]; discriminate H.
  - rewrite E in Hin. exfalso. destruct Hin as [H|Hin]; [discriminate H|].
    apply in_app_or in Hin as [Hin|[H|[]]]; [|discriminate H].
    destruct Q as (_ & Q & _). exact (no_ui_not_in _ _ Q Hin).
  - destruct Q as (_ & Q & _).
    rewrite load_and_serve_evs in E.
    pose proof (loop_no_ui location [FULL; SNAPSHOT] false w') as L.
    pose proof (loop_imported location [FULL; SNAPSHOT] false w') as I.
    revert E.
    destruct (res_of (release_loop location [FULL; SNAPSHOT] false w'))
      as [[|]|e] eqn:Er; intros E.
    + destruct (serve_ui_evs
                  (world_of (release_loop location [FULL; SNAPSHOT] false w')))
        as (o1 & logs & Es & Hd & Hf).
      rewrite Es in E. clear Es.
      assert (E' : evs_of (main package_location DB_FILE w)
                   = (MkTemp d :: t
                        ++ evs_of (release_loop location [FULL; SNAPSHOT]
                                     false w'))
                     ++ Execute UI_START_COMMAND o1 :: logs
                     ++ [Log INFO INFO_UI_RUNNING; Input;
                         Close; Log DEBUG DEBUG_CONNECTION_CLOSED; RmTemp d]).
      { rewrite E. unfold closing. cbn [app]. f_equal.
        rewrite <- !app_assoc. cbn [app]. rewrite <- !app_assoc.
        reflexivity. }
      assert (P : Forall no_ui
                    (MkTemp d :: t
                       ++ evs_of (release_loop location [FULL; SNAPSHOT]
                                    false w'))).
      { apply Forall_cons; [intros o0 H; discriminate H|].
        apply Forall_app. split; assumption. }
      assert (o = o1).
      { rewrite E' in Hin. apply (ui_start_unique _ _ _ _ P) in Hin;
          [exact Hin|].
        destruct o1 as [|e|e].
        - rewrite (Hd eq_refl). ui_free.
        - rewrite (Hf e (or_intror eq_refl)). ui_free.
        - rewrite (Hf e (or_introl eq_refl)). ui_free. }
      subst o1. eexists. exists logs, d.
      split; [exact E'|]. split; [exact P|].
      split; [|split; assumption].
      destruct (I eq_refl) as [H|(x & o' & Hx)]; [discriminate H|].
      exists x, o'. right. apply in_or_app. right. exact Hx.
    + exfalso. rewrite E in Hin. revert Hin. apply no_ui_not_in.
      apply Forall_cons; [intros o0 H; discriminate H|].
      apply Forall_app. split; [exact Q|].
      apply Forall_app. split; [|ui_free].
      apply Forall_app. split; [exact L|]. unfold closing. ui_free.
    + exfalso. rewrite E in Hin. revert Hin. apply no_ui_not_in.
      apply Forall_cons; [intros o0 H; discriminate H|].
      apply Forall_app. split; [exact Q|].
      apply Forall_app. split; [|ui_free].
      apply Forall_app. split; [exact L|]. unfold closing. ui_free.
Qed.

(** X10.  The usage help is printed exactly when the package path is the
    empty string and names neither a directory nor a file; the run is then
    the error line, the help, and [SystemExit], with nothing else touched. *)
Theorem X10_usage_help_iff_empty_path package_location DB_FILE w :
  (In PrintHelp (evs_of (main package_location DB_FILE w))
   <-> package_location = []
       /\ isdir w package_location = false
       /\ isfile w package_location = false)
  /\ (In PrintHelp (evs_of (main package_location DB_FILE w)) ->
      main package_location DB_FILE w
      = (Raise SystemExit, w, [Log ERROR ERROR_INVALID_PACKAGE; PrintHelp])).
Proof.
  rewrite main_eq.
  destruct (str_eqb package_location []) eqn:Ee;
    destruct (isdir w package_location) eqn:Ed;
    destruct (isfile w package_location) eqn:Ef; cbn [negb orb];
    try (split; [split|];
         [ intros H; destruct (load_package_no_help _ _ _ H)
         | intros (H1 & H2 & H3);
           try discriminate H2; try discriminate H3;
           subst package_location; discriminate Ee
         | intros H; destruct (load_package_no_help _ _ _ H) ]).
  apply str_eqb_eq in Ee.
  split; [split|]; [auto| |reflexivity].
  intros _. right. left. reflexivity.
Qed.

(** X11.  A package path ending in [.zip] that is not a file: the run logs
    the error and exits; the temporary directory is created and removed,
    and no connection is opened. *)
Theorem X11_missing_archive_exits_unconnected
    package_location DB_FILE w w1 d :
  ends_with (py ".zip") package_location = true ->
  mkdtemp w = (w1, d) ->
  isfile w1 package_location = false ->
  main package_location DB_FILE w
  = (Raise SystemExit, rmtree w1 d,
     [MkTemp d; Log ERROR ERROR_ZIP_NOT_FOUND; RmTemp d]).
Proof.
  intros Hz Hm Hf. rewrite main_eq.
  destruct package_location as [|c s]; [discriminate Hz|].
  cbn [str_eqb negb orb].
  unfold load_package, with_temp_dir. rewrite Hm.
  unfold bind, unpack. rewrite Hz, Hf. reflexivity.
Qed.

(** X12.  An archive without entries: extraction succeeds, taking the first
    entry of the empty directory listing raises [IndexError], and the run
    ends there - the temporary directory is removed, no connection is
    opened. *)
Theorem X12_empty_archive_raises_index_error
    package_location DB_FILE w w1 w2 d :
  ends_with (py ".zip") package_location = true ->
  mkdtemp w = (w1, d) ->
  isfile w1 package_location = true ->
  extractall w1 package_location d = (w2, None) ->
  listdir w2 d = [] ->
  main package_location DB_FILE w
  = (Raise IndexError, rmtree w2 d,
     [MkTemp d; Log INFO (INFO_EXTRACTING_PACKAGE package_location);
      ExtractAll package_location d; RmTemp d]).
Proof.
  intros Hz Hm Hf Hx Hl. rewrite main_eq.
  destruct package_location as [|c s]; [discriminate Hz|].
  cbn [str_eqb negb orb].
  unfold load_package, with_temp_dir. rewrite Hm.
  unfold bind at 1. unfold unpack. rewrite Hz, Hf. cbn [negb].
  unfold bind, logging, emit. rewrite Hx, Hl. reflexivity.
Qed.

(** X13.  Once a script or a statement went to the connection, the run ends
    by closing the connection and then removing the temporary directory, and
    the connection is closed nowhere before - also when validation is fatal
    or the prompt raises.  A run without any call never closes. *)
Theorem X13_connection_closed_once_at_the_end package_location DB_FILE w :
  (~ idle (evs_of (main package_location DB_FILE w)) ->
   exists pre d,
     evs_of (main package_location DB_FILE w)
     = pre ++ [Close; Log DEBUG DEBUG_CONNECTION_CLOSED; RmTemp d]
     /\ closes pre = 0)
  /\ (idle (evs_of (main package_location DB_FILE w)) ->
      closes (evs_of (main package_location DB_FILE w)) = 0).
Proof.
  destruct (main_shapes package_location DB_FILE w)
    as [E|[(d & t & E & Q & I & C)|(d & t & location & w' & E & Q & C & N)]].
  - rewrite E. split; [intros H; destruct (H eq_refl)|reflexivity].
  - rewrite E.
    change (MkTemp d :: t ++ [RmTemp d])
      with ([MkTemp d] ++ t ++ [RmTemp d]).
    split.
    + intros H. exfalso. apply H. unfold idle in *.
      rewrite !calls_app, I. reflexivity.
    + intros _. rewrite !closes_app, C. reflexivity.
  - rewrite load_and_serve_evs in E. split.
    + intros _.
      exists (MkTemp d :: t
                ++ evs_of (release_loop location [FULL; SNAPSHOT] false w')
                ++ match res_of (release_loop location [FULL; SNAPSHOT]
                                   false w') with
                   | Ok true =>
                       evs_of (serve_ui
                                 (world_of (release_loop location
                                              [FULL; SNAPSHOT] false w')))
                   | _ => []
                   end), d.
      split.
      * rewrite E. unfold closing. cbn [app]. f_equal.
        rewrite <- !app_assoc. reflexivity.
      * change (MkTemp d :: ?l) with ([MkTemp d] ++ l).
        rewrite !closes_app, C, loop_closes.
        destruct (res_of (release_loop location [FULL; SNAPSHOT] false w'))
          as [[|]|e]; [rewrite serve_ui_closes| |]; reflexivity.
    + intros I. exfalso. apply N. revert I. rewrite E. unfold idle.
      change (MkTemp d :: ?l) with ([MkTemp d] ++ l).
      rewrite !calls_app. cbn [calls flat_map app].
      intros H. apply app_eq_nil in H as [H _]. exact H.
Qed.

(** X14.  Once the connection is open the constructor returns normally
    whatever the two UI extension commands answer; the install command is
    always sent, the load command only after the install succeeded. *)
Theorem X14_client_survives_ui_extension_failure db_path w w1 :
  connect w db_path = (w1, None) ->
  res_of (DuckDBClient db_path w) = Ok tt
  /\ (snd (execute w1 UI_INSTALL_COMMAND) = Done ->
      calls (evs_of (DuckDBClient db_path w))
      = [Statement UI_INSTALL_COMMAND; Statement UI_LOAD_COMMAND])
  /\ (snd (execute w1 UI_INSTALL_COMMAND) <> Done ->
      calls (evs_of (DuckDBClient db_path w))
      = [Statement UI_INSTALL_COMMAND]).
Proof.
  intros Hc.
  unfold DuckDBClient, bind, duckdb_connect, conn_execute, res_of, evs_of.
  rewrite Hc.
  destruct (execute w1 UI_INSTALL_COMMAND) as [w2 [|e1|e1]];
    cbn [logging emit fst snd].
  - destruct (execute w2 UI_LOAD_COMMAND) as [w3 [|e2|e2]];
      (split; [reflexivity|]); (split; [reflexivity|]);
      intros H; destruct (H eq_refl).
  - split; [reflexivity|]. split; [discriminate|reflexivity].
  - split; [reflexivity|]. split; [discriminate|reflexivity].
Qed.

End RunProperties.

(* ================================================================== *)
(** * The ASCII-only table meets the assumptions on lower-casing *)
(* ================================================================== *)

Section AsciiOnly.

Lemma upper_is_ascii c : is_ascii c = false -> is_ascii_upper c = false.
Proof.
  unfold is_ascii, is_ascii_upper, in_range. intros H.
  apply N.ltb_ge in H. apply andb_false_iff. right. apply N.leb_gt. lia.
Qed.

Lemma lower_at_ascii_only pre x s :
  @lower_at ascii_only (pre ++ x :: s) (List.length pre)
  = [ascii_lower_char x].
Proof.
  unfold lower_at. simpl uni_lower.
  rewrite nth_error_app2, Nat.sub_diag by lia. simpl.
  unfold ascii_lower_char. destruct (is_ascii x) eqn:E; [reflexivity|].
  rewrite (upper_is_ascii x E). reflexivity.
Qed.

Lemma lower_ascii_only_from s : forall pre,
  concat (map (@lower_at ascii_only (pre ++ s))
              (seq (List.length pre) (List.length s)))
  = map ascii_lower_char s.
Proof.
  induction s as [|x s IH]; intros pre; [reflexivity|].
  cbn [List.length seq map concat]. rewrite lower_at_ascii_only.
  specialize (IH (pre ++ [x])).
  rewrite <- app_assoc, length_app, Nat.add_1_r in IH. simpl in IH.
  rewrite IH. reflexivity.
Qed.

Lemma lower_ascii_only s : @lower ascii_only s = map ascii_lower_char s.
Proof. exact (lower_ascii_only_from s []). Qed.

Lemma ascii_only_lower_idem s :
  @lower ascii_only (@lower ascii_only s) = @lower ascii_only s.
Proof.
  rewrite !lower_ascii_only, map_map. apply map_ext. intros c.
  unfold ascii_lower_char. destruct (is_ascii_upper c) eqn:E.
  - assert (E' : is_ascii_upper (c + 32)%N = false).
    { unfold is_ascii_upper, in_range in *.
      apply andb_true_iff in E as [H1 H2]. apply N.leb_le in H1, H2.
      apply andb_false_iff. right. apply N.leb_gt. lia. }
    rewrite E'. reflexivity.
  - rewrite E. reflexivity.
Qed.

Lemma ascii_only_expansion_ok : @lower_expansion_ok ascii_only.
Proof.
  intros s i x E Ha c Hc. simpl in Hc. rewrite E in Hc.
  destruct Hc as [<- |[]]. apply upper_is_ascii, Ha.
Qed.

End AsciiOnly.

(* ================================================================== *)
(** * The theorems at particular inputs *)
(* ================================================================== *)

#[local] Existing Instance ascii_only.

Ltac find_event := vm_compute; repeat (first [left; reflexivity | right]).

(** C2: a name with a final line feed is accepted although it is in the
    grammar under neither reading of the separator, and an accepted
    extension name is not in the grammar as section 4.1 writes it. *)
Lemma C2_counterexample :
  classify SNAPSHOT (concept_us ++ [nl]) <> None
  /\ ~ spec_grammar SNAPSHOT (concept_us ++ [nl])
  /\ ~ rf2_grammar SNAPSHOT (concept_us ++ [nl])
  /\ classify SNAPSHOT concept_us <> None
  /\ ~ spec_grammar SNAPSHOT concept_us.
Proof.
  split; [vm_compute; discriminate|].
  split; [intros (n & _ & E); exact (render_not_nl _ _ _ _ (eq_sym E))|].
  split; [intros (n & _ & E); exact (render_not_nl _ _ _ _ (eq_sym E))|].
  split; [vm_compute; discriminate|].
  intros H. apply spec_grammar_tail in H as [_ H].
  vm_compute in H. discriminate H.
Qed.

Lemma C2_witness :
  ends_with [nl] concept_us = false
  /\ (classify SNAPSHOT concept_us <> None <-> rf2_grammar SNAPSHOT concept_us).
Proof.
  assert (H : ends_with [nl] concept_us = false) by reflexivity.
  split; [exact H|].
  exact (proj1 (C2_classifier_accepts_grammar SNAPSHOT concept_us H)).
Defined.

Lemma C3_witness :
  (re_match (filter_regex SNAPSHOT) no_summary_us = Some no_summary_match
   /\ group no_summary_match 1 = Some (py "der")
   /\ group no_summary_match 3 = None)
  /\ table_name_of SNAPSHOT no_summary_us = Some (Raise TypeError).
Proof.
  assert (H1 : re_match (filter_regex SNAPSHOT) no_summary_us
               = Some no_summary_match) by (vm_compute; reflexivity).
  assert (H2 : group no_summary_match 1 = Some (py "der")) by reflexivity.
  assert (H3 : group no_summary_match 3 = None) by reflexivity.
  split; [auto|].
  exact (proj1 (proj2 (C3_absent_summary_raises SNAPSHOT _ _ H1 H2 H3))).
Defined.

(** C4: the name of the claim is rejected; rule 2 does not turn the base
    into the bare [RefsetDescriptor]; an accepted name of the same kind is
    named [refsetdescriptor_s]. *)
Lemma C4_counterexample :
  table_name_of SNAPSHOT refsetdescriptor_int
    <> Some (Ok (py "refsetdescriptor"))
  /\ apply_transformation (drop_suffix_from_refsetdescriptor SNAPSHOT)
       (py "RefsetDescriptorrefset_s") <> Ok (py "RefsetDescriptor")
  /\ table_name_of SNAPSHOT refsetdescriptor_us
     = Some (Ok (py "refsetdescriptor_s")).
Proof.
  split; [vm_compute; discriminate|].
  split; [vm_compute; discriminate|].
  vm_compute. reflexivity.
Qed.

Lemma C4_witness :
  (re_match (filter_regex SNAPSHOT) refsetdescriptor_us
     = Some refsetdescriptor_match
   /\ group refsetdescriptor_match 1 = Some (py "der")
   /\ group refsetdescriptor_match 3 = Some (py "RefsetDescriptor")
   /\ ends_with [nl] refsetdescriptor_us = false)
  /\ table_name_of SNAPSHOT refsetdescriptor_us
     = Some (Ok (py "refsetdescriptor_s")).
Proof.
  assert (H1 : re_match (filter_regex SNAPSHOT) refsetdescriptor_us
               = Some refsetdescriptor_match) by (vm_compute; reflexivity).
  assert (H2 : group refsetdescriptor_match 1 = Some (py "der"))
    by reflexivity.
  assert (H3 : group refsetdescriptor_match 3 = Some (py "RefsetDescriptor"))
    by reflexivity.
  assert (H4 : ends_with [nl] refsetdescriptor_us = false) by reflexivity.
  split; [auto|].
  exact (proj2 (proj2
           (C4_refsetdescriptor_keeps_short_code _ _ H1 H2 H3 H4))).
Defined.

(** C5: the name of the claim is rejected; rule 3 does not turn the base
    into [Simple_s]; an accepted name of the same kind is named
    [simplerefset_s]. *)
Lemma C5_counterexample :
  table_name_of SNAPSHOT simple_int <> Some (Ok (py "simple_s"))
  /\ apply_transformation drop_suffix_from_simplerefset (py "Simplerefset_s")
     <> Ok (py "Simple_s")
  /\ table_name_of SNAPSHOT simple_us = Some (Ok (py "simplerefset_s")).
Proof.
  split; [vm_compute; discriminate|].
  split; [vm_compute; discriminate|].
  vm_compute. reflexivity.
Qed.

Lemma C5_witness :
  (re_match (filter_regex SNAPSHOT) simple_us = Some simple_match
   /\ group simple_match 1 = Some (py "der")
   /\ group simple_match 3 = Some (py "Simple")
   /\ ends_with [nl] simple_us = false)
  /\ table_name_of SNAPSHOT simple_us = Some (Ok (py "simplerefset_s")).
Proof.
  assert (H1 : re_match (filter_regex SNAPSHOT) simple_us = Some simple_match)
    by (vm_compute; reflexivity).
  assert (H2 : group simple_match 1 = Some (py "der")) by reflexivity.
  assert (H3 : group simple_match 3 = Some (py "Simple")) by reflexivity.
  assert (H4 : ends_with [nl] simple_us = false) by reflexivity.
  split; [auto|].
  exact (proj2 (proj2 (C5_simple_refset_name _ _ H1 H2 H3 H4))).
Defined.

Lemma C6_witness :
  (nth_error (sort_entries [refset_entry; concept_entry]) 0 = Some concept_entry
   /\ nth_error (sort_entries [refset_entry; concept_entry]) 1
      = Some refset_entry
   /\ contains (py "sct2") (dir_of concept_entry) = true
   /\ contains (py "concept") (table_of concept_entry) = true
   /\ (contains (py "sct2") (dir_of refset_entry) = false
       \/ contains (py "concept") (table_of refset_entry) = false))
  /\ 0 < 1.
Proof.
  assert (H1 : nth_error (sort_entries [refset_entry; concept_entry]) 0
               = Some concept_entry) by (vm_compute; reflexivity).
  assert (H2 : nth_error (sort_entries [refset_entry; concept_entry]) 1
               = Some refset_entry) by (vm_compute; reflexivity).
  assert (H3 : contains (py "sct2") (dir_of concept_entry) = true)
    by reflexivity.
  assert (H4 : contains (py "concept") (table_of concept_entry) = true)
    by reflexivity.
  assert (H5 : contains (py "sct2") (dir_of refset_entry) = false
               \/ contains (py "concept") (table_of refset_entry) = false)
    by (left; reflexivity).
  split; [auto 6|].
  exact (proj2 (proj2 (C6_plan_sorted_concept_first
                         [refset_entry; concept_entry]))
           0 1 _ _ H1 H2 H3 H4 H5).
Defined.

Lemma C7_witness :
  In (validation_ran (Wd := one_file_world (Rows [[py "1"]]))
        SNAPSHOT [[py "1"]])
     (evs_of (main (Wd := one_file_world (Rows [[py "1"]]))
                (py "/pkg") [] tt))
  /\ res_of (main (Wd := one_file_world (Rows [[py "1"]]))
               (py "/pkg") [] tt)
     = Raise SystemExit.
Proof.
  assert (H : In (validation_ran (Wd := one_file_world (Rows [[py "1"]]))
                    SNAPSHOT [[py "1"]])
                 (evs_of (main (Wd := one_file_world (Rows [[py "1"]]))
                            (py "/pkg") [] tt)))
    by find_event.
  split; [exact H|].
  exact (proj1 (C7_fatal_validation_ends_run
                 (Wd := one_file_world (Rows [[py "1"]]))
                 (py "/pkg") [] tt SNAPSHOT [py "1"] [] H)).
Defined.

Lemma C8_witness :
  (py "/no/such/dir" <> []
   /\ isdir (World := empty_world) tt (py "/no/such/dir") = false
   /\ isfile (World := empty_world) tt (py "/no/such/dir") = false
   /\ ends_with (py ".zip") (py "/no/such/dir") = false)
  /\ res_of (validate_package_path (Wd := empty_world) (py "/no/such/dir") tt)
     = Ok tt
  /\ ~ In PrintHelp (evs_of (main (Wd := empty_world) (py "/no/such/dir") [] tt))
  /\ exists d rest,
       evs_of (main (Wd := empty_world) (py "/no/such/dir") [] tt)
       = MkTemp d :: Connect [] :: rest.
Proof.
  assert (H1 : py "/no/such/dir" <> []) by discriminate.
  assert (H2 : isdir (World := empty_world) tt (py "/no/such/dir") = false)
    by reflexivity.
  assert (H3 : isfile (World := empty_world) tt (py "/no/such/dir") = false)
    by reflexivity.
  assert (H4 : ends_with (py ".zip") (py "/no/such/dir") = false)
    by reflexivity.
  split; [auto|].
  exact (C8_invalid_path_reaches_connect (Wd := empty_world)
           (py "/no/such/dir") [] tt H1 H2 H3 H4).
Defined.

Lemma C9_witness :
  (lower_expansion_ok
   /\ (forall s, lower (lower s) = lower s)
   /\ normalize SNAPSHOT concept_us = Ok (py "concept_s"))
  /\ normalize SNAPSHOT (py "concept_s") = Ok (py "concept_s").
Proof.
  assert (H : normalize SNAPSHOT concept_us = Ok (py "concept_s"))
    by (vm_compute; reflexivity).
  split; [auto using ascii_only_expansion_ok, ascii_only_lower_idem|].
  exact (C9_pipeline_idempotent_on_output SNAPSHOT concept_us (py "concept_s")
           ascii_only_expansion_ok ascii_only_lower_idem H).
Defined.

Lemma C10_witness :
  (forall r rs,
      snd (run_sql_file (World := one_file_world (SqlRaises (py "no file")))
             tt
             (path_join (SQL_RESOURCES_PATH
                           (Wd := one_file_world (SqlRaises (py "no file"))))
                        (validation_filename SNAPSHOT)))
      <> Rows (r :: rs))
  /\ res_of (validate_targetcomponentid
               (Wd := one_file_world (SqlRaises (py "no file"))) SNAPSHOT tt)
     = Ok tt.
Proof.
  assert (H : forall r rs,
             snd (run_sql_file
                    (World := one_file_world (SqlRaises (py "no file"))) tt
                    (path_join
                       (SQL_RESOURCES_PATH
                          (Wd := one_file_world (SqlRaises (py "no file"))))
                       (validation_filename SNAPSHOT)))
             <> Rows (r :: rs))
    by (intros r rs; vm_compute; discriminate).
  split; [exact H|].
  exact (proj1 (proj1 (proj2 (C10_failing_script_is_not_fatal
                                (Wd := one_file_world (SqlRaises (py "no file")))
                                SNAPSHOT tt)) H)).
Defined.

Lemma X3_witness :
  get_table_details sample_tree SNAPSHOT = Ok sample_plan
  /\ (forall n dirname f,
        In (n, dirname, f) sample_plan
        <-> listed sample_tree dirname f
            /\ table_name_of SNAPSHOT f = Some (Ok n))
  /\ List.length sample_plan = accepted_count SNAPSHOT sample_tree.
Proof.
  assert (H : get_table_details sample_tree SNAPSHOT = Ok sample_plan)
    by (vm_compute; reflexivity).
  split; [exact H|].
  exact (X3_plan_entries SNAPSHOT sample_tree sample_plan H).
Defined.

Lemma X4_witness :
  lower_expansion_ok
  /\ get_table_details sample_tree SNAPSHOT = Ok sample_plan
  /\ In (py "simplerefset_s", py "/pkg/Snapshot/Refset/Content", simple_us)
        sample_plan
  /\ no_upper (py "simplerefset_s").
Proof.
  assert (H : get_table_details sample_tree SNAPSHOT = Ok sample_plan)
    by (vm_compute; reflexivity).
  assert (I : In (py "simplerefset_s", py "/pkg/Snapshot/Refset/Content",
                  simple_us) sample_plan)
    by (right; left; reflexivity).
  split; [exact ascii_only_expansion_ok|]. split; [exact H|].
  split; [exact I|].
  exact (X4_table_names_lower_case SNAPSHOT sample_tree sample_plan
           ascii_only_expansion_ok H _ I).
Defined.

Lemma X5_witness :
  accepts SNAPSHOT concept_us = true
  /\ accepts SNAPSHOT concept_us = true
  /\ SNAPSHOT = SNAPSHOT.
Proof.
  assert (H : accepts SNAPSHOT concept_us = true) by (vm_compute; reflexivity).
  split; [exact H|]. split; [exact H|].
  exact (X5_release_types_exclusive SNAPSHOT SNAPSHOT concept_us H H).
Defined.

Lemma X6_witness :
  nth_error (sort_entries [refset_entry; concept_entry]) 0 = Some concept_entry
  /\ nth_error (sort_entries [refset_entry; concept_entry]) 1
     = Some refset_entry
  /\ 0 < 1
  /\ (contains (py "sct2") (dir_of refset_entry) = true ->
      contains (py "sct2") (dir_of concept_entry) = true)
  /\ (contains (py "sct2") (dir_of concept_entry)
      = contains (py "sct2") (dir_of refset_entry) ->
      contains (py "concept") (table_of refset_entry) = true ->
      contains (py "concept") (table_of concept_entry) = true).
Proof.
  assert (Ha : nth_error (sort_entries [refset_entry; concept_entry]) 0
               = Some concept_entry) by (vm_compute; reflexivity).
  assert (Hb : nth_error (sort_entries [refset_entry; concept_entry]) 1
               = Some refset_entry) by (vm_compute; reflexivity).
  assert (Hij : 0 < 1) by lia.
  split; [exact Ha|]. split; [exact Hb|]. split; [exact Hij|].
  exact (X6_terminology_then_concept_first [refset_entry; concept_entry]
           0 1 concept_entry refset_entry Ha Hb Hij).
Defined.

Lemma X7_witness :
  get_table_details
    (walk (World := one_file_world (Rows [])) tt
       (path_join (py "/pkg") (value SNAPSHOT))) SNAPSHOT
  = Ok one_file_plan
  /\ one_file_plan <> []
  /\ exists rest,
       calls (evs_of (release_loop (Wd := one_file_world (Rows []))
                        (py "/pkg") [SNAPSHOT] false tt))
       = Script (ddl_filename SNAPSHOT)
         :: map (fun x => Statement (copy_of x)) one_file_plan
         ++ Script (validation_filename SNAPSHOT) :: rest.
Proof.
  assert (H : get_table_details
                (walk (World := one_file_world (Rows [])) tt
                   (path_join (py "/pkg") (value SNAPSHOT))) SNAPSHOT
              = Ok one_file_plan) by (vm_compute; reflexivity).
  assert (N : one_file_plan <> []) by discriminate.
  split; [exact H|]. split; [exact N|].
  exact (X7_ddl_imports_validation_in_order
           (Wd := one_file_world (Rows []))
           (py "/pkg") SNAPSHOT [] false tt one_file_plan H N).
Defined.

Lemma X8_witness :
  get_table_details
    (walk (World := empty_world) tt (path_join (py "/pkg") (value FULL)))
    FULL = Ok []
  /\ get_table_details
       (walk (World := empty_world) tt
          (path_join (py "/pkg") (value SNAPSHOT))) SNAPSHOT = Ok []
  /\ load_and_serve (Wd := empty_world) (py "/pkg") tt
     = (Ok tt, close_connection (World := empty_world) tt,
        [Walk (path_join (py "/pkg") (value FULL));
         Log WARNING (WARNING_NO_MATCHING_FILES FULL);
         Walk (path_join (py "/pkg") (value SNAPSHOT));
         Log WARNING (WARNING_NO_MATCHING_FILES SNAPSHOT);
         Close; Log DEBUG DEBUG_CONNECTION_CLOSED]).
Proof.
  assert (HF : get_table_details
                 (walk (World := empty_world) tt
                    (path_join (py "/pkg") (value FULL))) FULL = Ok [])
    by reflexivity.
  assert (HS : get_table_details
                 (walk (World := empty_world) tt
                    (path_join (py "/pkg") (value SNAPSHOT))) SNAPSHOT = Ok [])
    by reflexivity.
  split; [exact HF|]. split; [exact HS|].
  exact (X8_nothing_to_import (Wd := empty_world) (py "/pkg") tt HF HS).
Defined.

Lemma X9_witness :
  In (Execute UI_START_COMMAND Done)
     (evs_of (main (Wd := one_file_world (Rows [])) (py "/pkg") [] tt))
  /\ exists pre logs d,
       evs_of (main (Wd := one_file_world (Rows [])) (py "/pkg") [] tt)
       = pre ++ Execute UI_START_COMMAND Done :: logs
             ++ [Log INFO INFO_UI_RUNNING; Input;
                 Close; Log DEBUG DEBUG_CONNECTION_CLOSED; RmTemp d]
       /\ Forall no_ui pre
       /\ (exists x o', In (Execute (copy_of x) o') pre)
       /\ (Done = Done -> logs = [])
       /\ (forall e, Done = Failed e \/ Done = CatalogException e ->
                     logs = [Log ERROR (ERROR_UI_START_FAILED e)]).
Proof.
  assert (H : In (Execute UI_START_COMMAND Done)
                 (evs_of (main (Wd := one_file_world (Rows []))
                            (py "/pkg") [] tt)))
    by find_event.
  split; [exact H|].
  exact (X9_ui_start_follows_an_import (Wd := one_file_world (Rows []))
           (py "/pkg") [] tt Done H).
Defined.

Lemma X10_witness :
  In PrintHelp (evs_of (main (Wd := empty_world) [] [] tt))
  /\ main (Wd := empty_world) [] [] tt
     = (Raise SystemExit, tt, [Log ERROR ERROR_INVALID_PACKAGE; PrintHelp]).
Proof.
  assert (H : In PrintHelp (evs_of (main (Wd := empty_world) [] [] tt)))
    by find_event.
  split; [exact H|].
  exact (proj2 (X10_usage_help_iff_empty_path (Wd := empty_world) [] [] tt) H).
Defined.

Lemma X11_witness :
  ends_with (py ".zip") (py "/rel.zip") = true
  /\ mkdtemp (World := empty_world) tt = (tt, py "/tmp/tmp0")
  /\ isfile (World := empty_world) tt (py "/rel.zip") = false
  /\ main (Wd := empty_world) (py "/rel.zip") [] tt
     = (Raise SystemExit, rmtree (World := empty_world) tt (py "/tmp/tmp0"),
        [MkTemp (py "/tmp/tmp0"); Log ERROR ERROR_ZIP_NOT_FOUND;
         RmTemp (py "/tmp/tmp0")]).
Proof.
  assert (Hz : ends_with (py ".zip") (py "/rel.zip") = true) by reflexivity.
  assert (Hm : mkdtemp (World := empty_world) tt = (tt, py "/tmp/tmp0"))
    by reflexivity.
  assert (Hf : isfile (World := empty_world) tt (py "/rel.zip") = false)
    by reflexivity.
  split; [exact Hz|]. split; [exact Hm|]. split; [exact Hf|].
  exact (X11_missing_archive_exits_unconnected (Wd := empty_world)
           (py "/rel.zip") [] tt tt (py "/tmp/tmp0") Hz Hm Hf).
Defined.

Lemma X12_witness :
  ends_with (py ".zip") (py "/rel.zip") = true
  /\ mkdtemp (World := empty_archive_world) tt = (tt, py "/tmp/tmp0")
  /\ isfile (World := empty_archive_world) tt (py "/rel.zip") = true
  /\ extractall (World := empty_archive_world) tt (py "/rel.zip")
       (py "/tmp/tmp0") = (tt, None)
  /\ listdir (World := empty_archive_world) tt (py "/tmp/tmp0") = []
  /\ main (Wd := empty_archive_world) (py "/rel.zip") [] tt
     = (Raise IndexError,
        rmtree (World := empty_archive_world) tt (py "/tmp/tmp0"),
        [MkTemp (py "/tmp/tmp0");
         Log INFO (INFO_EXTRACTING_PACKAGE (py "/rel.zip"));
         ExtractAll (py "/rel.zip") (py "/tmp/tmp0");
         RmTemp (py "/tmp/tmp0")]).
Proof.
  assert (Hz : ends_with (py ".zip") (py "/rel.zip") = true) by reflexivity.
  assert (Hm : mkdtemp (World := empty_archive_world) tt
               = (tt, py "/tmp/tmp0")) by reflexivity.
  assert (Hf : isfile (World := empty_archive_world) tt (py "/rel.zip")
               = true) by reflexivity.
  assert (Hx : extractall (World := empty_archive_world) tt (py "/rel.zip")
                 (py "/tmp/tmp0") = (tt, None)) by reflexivity.
  assert (Hl : listdir (World := empty_archive_world) tt (py "/tmp/tmp0")
               = []) by reflexivity.
  split; [exact Hz|]. split; [exact Hm|]. split; [exact Hf|].
  split; [exact Hx|]. split; [exact Hl|].
  exact (X12_empty_archive_raises_index_error (Wd := empty_archive_world)
           (py "/rel.zip") [] tt tt tt (py "/tmp/tmp0") Hz Hm Hf Hx Hl).
Defined.

Lemma X13_witness :
  ~ idle (evs_of (main (Wd := empty_world) (py "/pkg") [] tt))
  /\ exists pre d,
       evs_of (main (Wd := empty_world) (py "/pkg") [] tt)
       = pre ++ [Close; Log DEBUG DEBUG_CONNECTION_CLOSED; RmTemp d]
       /\ closes pre = 0.
Proof.
  assert (H : ~ idle (evs_of (main (Wd := empty_world) (py "/pkg") [] tt)))
    by (unfold idle; vm_compute; discriminate).
  split; [exact H|].
  exact (proj1 (X13_connection_closed_once_at_the_end (Wd := empty_world)
                  (py "/pkg") [] tt) H).
Defined.

Lemma X14_witness :
  connect (World := empty_world) tt [] = (tt, None)
  /\ res_of (DuckDBClient (Wd := empty_world) [] tt) = Ok tt
  /\ (snd (execute (World := empty_world) tt UI_INSTALL_COMMAND) = Done ->
      calls (evs_of (DuckDBClient (Wd := empty_world) [] tt))
      = [Statement UI_INSTALL_COMMAND; Statement UI_LOAD_COMMAND])
  /\ (snd (execute (World := empty_world) tt UI_INSTALL_COMMAND) <> Done ->
      calls (evs_of (DuckDBClient (Wd := empty_world) [] tt))
      = [Statement UI_INSTALL_COMMAND]).
Proof.
  assert (H : connect (World := empty_world) tt [] = (tt, None))
    by reflexivity.
  split; [exact H|].
  exact (X14_client_survives_ui_extension_failure (Wd := empty_world)
           [] tt tt H).
Defined.
